(** * X8H7 transport multiplexer: framing, enqueue, exchange and dispatch

    A shallow embedding of [x8h7_drv.c] (with the constants of [x8h7.h]):
    the outgoing frame buffer and [x8h7_pkt_enq], the dispatch loop
    [pkt_parse], the exchange [x8h7_pkt_send] with its three entry points,
    and the hook table.

    Memory is a map from byte offsets (relative to the base pointer of an
    allocation) to byte values, so that pointer arithmetic of the source
    reads as arithmetic on offsets.  A buffer of [X8H7_BUF_SIZE] bytes owns
    the offsets [0 .. 255]; larger offsets stand for the bytes that follow
    the allocation.  They are kept in the same map, so an access past the
    end of a buffer stays visible in the model.  Which object a store past
    the end of a buffer lands in is not modelled: what is stated about the
    rest of the state is stated for stores that stay inside the buffer.

    Logging ([printk], [DBG_PRINT], [DBG_ERROR]) is left out.  Of
    [pkt_dump], which is empty unless [DEBUG] is defined, the walk over the
    records is modelled, for comparison with [pkt_parse].  The mutex is not
    modelled: every entry point takes it on entry and releases it on each
    exit, so the functions below describe one critical section each. *)

From Stdlib Require Import ZArith List Bool Lia.
Import ListNotations.
Open Scope Z_scope.

(** ** Machine integers and memory *)

Definition u8 (v : Z) : Z := v mod 256.
Definition u16 (v : Z) : Z := v mod 65536.

Definition mem := Z -> Z.

Definition zero_mem : mem := fun _ => 0.

Definition load8 (m : mem) (p : Z) : Z := u8 (m p).

(* multi-byte fields are little-endian *)
Definition load16 (m : mem) (p : Z) : Z := load8 m p + 256 * load8 m (p + 1).

Definition store8 (m : mem) (p v : Z) : mem :=
  fun q => if q =? p then u8 v else m q.

Definition store16 (m : mem) (p v : Z) : mem :=
  store8 (store8 m p (u16 v)) (p + 1) (u16 v / 256).

Definition memset (m : mem) (p c n : Z) : mem :=
  fun q => if (p <=? q) && (q <? p + n) then u8 c else m q.

(* [src] lists the bytes behind the source pointer; a byte it does not
   have reads as 0 *)
Definition memcpy (m : mem) (p : Z) (src : list Z) (n : Z) : mem :=
  fun q => if (p <=? q) && (q <? p + n)
           then u8 (nth (Z.to_nat (q - p)) src 0) else m q.

Definition read_bytes (m : mem) (p : Z) (n : nat) : list Z :=
  map (fun i => load8 m (p + Z.of_nat i)) (seq 0 n).

(* a memory whose first bytes are those of [l] *)
Definition mem_of_list (l : list Z) : mem :=
  fun q => if q <? 0 then 0 else nth (Z.to_nat q) l 0.

(** ** Constants of x8h7.h and x8h7_drv.c *)

Definition X8H7_BUF_SIZE : Z := 256.
Definition FIXED_PACKET_LEN : Z := X8H7_BUF_SIZE.
Definition X8H7_PKT_SIZE : Z := X8H7_BUF_SIZE - 8.
Definition X8H7_PERIPH_NUM : Z := 16.
Definition ENOMEM : Z := 12.
Definition IRQ_HANDLED : Z := 1.

(* sizeof(x8h7_pkthdr_t), sizeof(x8h7_subpkt_t): packed, 4 bytes each *)
Definition sizeof_pkthdr : Z := 4.
Definition sizeof_subpkt : Z := 4.

(** x8h7_pkthdr_t overlaid at offset [0] of a buffer *)
Definition hdr_size (m : mem) : Z := load16 m 0.
Definition hdr_checksum (m : mem) : Z := load16 m 2.

(** x8h7_subpkt_t overlaid at offset [p] *)
Definition pkt_peripheral (m : mem) (p : Z) : Z := load8 m p.
Definition pkt_opcode (m : mem) (p : Z) : Z := load8 m (p + 1).
Definition pkt_size (m : mem) (p : Z) : Z := load16 m (p + 2).

(** x8h7_pkt_t, the copy handed to a hook; [data] holds the [size] bytes
    that were copied into the array *)
Record x8h7_pkt_t := {
  peripheral : Z;
  opcode : Z;
  size : Z;
  data : list Z
}.

(** ** Driver state *)

Record spidev_data := {
  x8h7_txb : mem;
  x8h7_txl : Z;
  x8h7_rxb : mem
}.

(** Calls made out of the driver, in the order they happen. Function and
    context pointers are addresses; the null pointer is [0]. A hook gets
    its own copy of the sub-packet and the tap a view of the receive
    buffer; neither writes to the buffers of the driver. *)
Inductive call :=
| HookCall (idx hook priv : Z) (p : x8h7_pkt_t)
| DbgCall (hook priv : Z) (frame : list Z) (len : Z).

Record driver := {
  x8h7_spidev : spidev_data;
  x8h7_hook : Z -> Z;
  x8h7_hook_priv : Z -> Z;
  x8h7_dbg : Z;
  x8h7_dbg_priv : Z;
  calls : list call
}.

Definition no_hook : Z -> Z := fun _ => 0.

(* state left by x8h7_probe: both buffers zeroed *)
Definition spidev_init : spidev_data :=
  {| x8h7_txb := zero_mem; x8h7_txl := 0; x8h7_rxb := zero_mem |}.

Definition driver_init : driver :=
  {| x8h7_spidev := spidev_init;
     x8h7_hook := no_hook; x8h7_hook_priv := no_hook;
     x8h7_dbg := 0; x8h7_dbg_priv := 0; calls := [] |}.

(** ** x8h7_pkt_enq *)

(** [data] is [None] for a null pointer. The arguments are converted to
    [uint8_t] and [uint16_t] on entry, as the prototype has them. *)
Definition x8h7_pkt_enq (peripheral opcode size : Z) (data : option (list Z))
    (spidev : spidev_data) : Z * spidev_data :=
  let peripheral := u8 peripheral in
  let opcode := u8 opcode in
  let size := u16 size in
  let txb := x8h7_txb spidev in
  let ptr := 0 in
  if hdr_size txb + sizeof_subpkt + size <? X8H7_BUF_SIZE then
    let ptr := ptr + (sizeof_pkthdr + hdr_size txb) in
    let pkt := ptr in
    let txb := store8 txb pkt peripheral in
    let txb := store8 txb (pkt + 1) opcode in
    let txb := store16 txb (pkt + 2) size in
    let ptr := ptr + sizeof_subpkt in
    let txb :=
      if size =? 0 then txb
      else match data with
           | None => memset txb ptr 0 size
           | Some src => memcpy txb ptr src size
           end in
    let txb := store16 txb 0 (hdr_size txb + (sizeof_subpkt + size)) in
    let txb := store16 txb 2 (Z.lxor (hdr_size txb) 0x5555) in
    (0, {| x8h7_txb := txb;
           x8h7_txl := hdr_size txb;
           x8h7_rxb := x8h7_rxb spidev |})
  else
    (- ENOMEM, spidev).

(** ** pkt_parse *)

(** Outcome of the dispatch loop: whether it has returned within the given
    number of iterations, the hook calls it made, and the ranges
    [(offset, length)] of the receive buffer it read. *)
Record parse_result := {
  pr_returned : bool;
  pr_calls : list call;
  pr_reads : list (Z * Z)
}.

Definition parse_return : parse_result :=
  {| pr_returned := true; pr_calls := []; pr_reads := [] |}.

Definition parse_more (cs : list call) (rs : list (Z * Z)) (r : parse_result)
    : parse_result :=
  {| pr_returned := pr_returned r;
     pr_calls := cs ++ pr_calls r;
     pr_reads := rs ++ pr_reads r |}.

(* the copy made for a hook: size clamped to the array of x8h7_pkt_t *)
Definition hook_pkt (rxb : mem) (pkt : Z) : x8h7_pkt_t :=
  let psize := pkt_size rxb pkt in
  let psize := if psize >? X8H7_PKT_SIZE then X8H7_PKT_SIZE else psize in
  {| peripheral := pkt_peripheral rxb pkt;
     opcode := pkt_opcode rxb pkt;
     size := psize;
     data := read_bytes rxb (pkt + sizeof_subpkt) (Z.to_nat psize) |}.

(* ranges read to fill the copy: the opcode field and the payload *)
Definition hook_reads (rxb : mem) (pkt : Z) : list (Z * Z) :=
  [(pkt + 1, 1); (pkt + sizeof_subpkt, size (hook_pkt rxb pkt))].

Fixpoint pkt_parse_loop (fuel : nat) (hook hook_priv : Z -> Z) (rxb : mem)
    (ptr size : Z) : parse_result :=
  match fuel with
  | O => {| pr_returned := false; pr_calls := []; pr_reads := [] |}
  | S fuel' =>
      let pkt := ptr in
      let ptr := ptr + sizeof_subpkt in
      let i := pkt_peripheral rxb pkt in
      (* reads of pkt->peripheral and of pkt->size *)
      let fields := [(pkt, 1); (pkt + 2, 2)] in
      (* tail of the loop body: advance, then test the do-while condition *)
      let next (cs : list call) (rs : list (Z * Z)) :=
        let ptr := ptr + pkt_size rxb pkt in
        let size := u16 (size - (sizeof_subpkt + pkt_size rxb pkt)) in
        parse_more cs (fields ++ rs)
          (if size >? 0
           then pkt_parse_loop fuel' hook hook_priv rxb ptr size
           else parse_return) in
      if i <? X8H7_PERIPH_NUM then
        if (pkt_peripheral rxb pkt =? 0) || (pkt_size rxb pkt =? 0) then
          (* [||] does not read pkt->size when pkt->peripheral is 0 *)
          parse_more []
            (if pkt_peripheral rxb pkt =? 0 then [(pkt, 1)] else fields)
            parse_return
        else if negb (hook i =? 0) then
          let p := hook_pkt rxb pkt in
          next [HookCall i (hook i) (hook_priv i) p] (hook_reads rxb pkt)
        else next [] []
      else next [] []
  end.

Definition pkt_parse (fuel : nat) (hook hook_priv : Z -> Z) (rxb : mem)
    : parse_result :=
  let ptr := 0 in
  let size := hdr_size rxb in
  let ptr := ptr + sizeof_pkthdr in
  parse_more [] [(0, 2)] (pkt_parse_loop fuel hook hook_priv rxb ptr size).

(** ** x8h7_hook_set, x8h7_dbg_set *)

Definition x8h7_hook_set (idx hook priv : Z) (d : driver) : Z * driver :=
  let idx := u8 idx in
  if idx >=? X8H7_PERIPH_NUM then (-1, d)
  else
    (0, {| x8h7_spidev := x8h7_spidev d;
           x8h7_hook := fun j => if j =? idx then hook else x8h7_hook d j;
           x8h7_hook_priv :=
             fun j => if j =? idx then priv else x8h7_hook_priv d j;
           x8h7_dbg := x8h7_dbg d;
           x8h7_dbg_priv := x8h7_dbg_priv d;
           calls := calls d |}).

Definition x8h7_dbg_set (hook priv : Z) (d : driver) : Z * driver :=
  (0, {| x8h7_spidev := x8h7_spidev d;
         x8h7_hook := x8h7_hook d;
         x8h7_hook_priv := x8h7_hook_priv d;
         x8h7_dbg := hook;
         x8h7_dbg_priv := priv;
         calls := calls d |}).

Definition with_spidev (d : driver) (s : spidev_data) : driver :=
  {| x8h7_spidev := s;
     x8h7_hook := x8h7_hook d;
     x8h7_hook_priv := x8h7_hook_priv d;
     x8h7_dbg := x8h7_dbg d;
     x8h7_dbg_priv := x8h7_dbg_priv d;
     calls := calls d |}.

(** ** The exchange and its entry points *)

Section Transport.

(** The SPI controller: given the bytes shifted out, the status of
    [spi_sync] and the bytes shifted in. *)
Variable spi_sync : list Z -> Z * list Z.

Definition x8h7_spi_trx (tx_buf rx_buf : mem) (len : Z) : Z * mem :=
  let '(ret, rx) := spi_sync (read_bytes tx_buf 0 (Z.to_nat len)) in
  (ret, memcpy rx_buf 0 rx (Z.min len (Z.of_nat (length rx)))).

(** [None]: the dispatch loop has not returned within [fuel] iterations. *)
Definition x8h7_pkt_send (fuel : nat) (d : driver) : option (Z * driver) :=
  let spidev := x8h7_spidev d in
  let len := FIXED_PACKET_LEN in
  (* the status returned by x8h7_spi_trx is not kept *)
  let '(_, rxb) := x8h7_spi_trx (x8h7_txb spidev) (x8h7_rxb spidev) len in
  let dispatched :=
    if negb (hdr_size rxb =? 0) then
      if negb (x8h7_dbg d =? 0) then
        Some [DbgCall (x8h7_dbg d) (x8h7_dbg_priv d)
                (read_bytes rxb 0 (Z.to_nat X8H7_BUF_SIZE)) (hdr_size rxb)]
      else
        let r := pkt_parse fuel (x8h7_hook d) (x8h7_hook_priv d) rxb in
        if pr_returned r then Some (pr_calls r) else None
    else Some [] in
  match dispatched with
  | None => None
  | Some cs =>
      Some (0,
            {| x8h7_spidev :=
                 {| x8h7_txb := memset (x8h7_txb spidev) 0 0 X8H7_BUF_SIZE;
                    x8h7_txl := 0;
                    x8h7_rxb := memset rxb 0 0 X8H7_BUF_SIZE |};
               x8h7_hook := x8h7_hook d;
               x8h7_hook_priv := x8h7_hook_priv d;
               x8h7_dbg := x8h7_dbg d;
               x8h7_dbg_priv := x8h7_dbg_priv d;
               calls := calls d ++ cs |})
  end.

Definition x8h7_pkt_send_sync (peripheral opcode size : Z)
    (data : option (list Z)) (fuel : nat) (d : driver) : option (Z * driver) :=
  let '(ret, spidev) := x8h7_pkt_enq peripheral opcode size data (x8h7_spidev d) in
  if ret <? 0 then Some (ret, with_spidev d spidev)
  else
    match x8h7_pkt_send fuel (with_spidev d spidev) with
    | None => None
    | Some (ret, d') => if ret <? 0 then Some (ret, d') else Some (ret, d')
    end.

Definition x8h7_pkt_send_defer (peripheral opcode size : Z)
    (data : option (list Z)) (d : driver) : Z * driver :=
  let '(ret, spidev) := x8h7_pkt_enq peripheral opcode size data (x8h7_spidev d) in
  (ret, with_spidev d spidev).

Definition x8h7_pkt_send_now (fuel : nat) (d : driver) : option (Z * driver) :=
  x8h7_pkt_send fuel d.

Definition x8h7_threaded_isr (fuel : nat) (d : driver) : option (Z * driver) :=
  match x8h7_pkt_send fuel d with
  | None => None
  | Some (_, d') => Some (IRQ_HANDLED, d')
  end.

End Transport.

(** ** Sequences of enqueue calls and the frame they describe *)

Record enq_call := {
  c_peripheral : Z;
  c_opcode : Z;
  c_size : Z;
  c_data : option (list Z)
}.

(* arguments as their C types allow them, with [size] readable bytes
   behind a non-null [data] *)
Definition valid_call (c : enq_call) : Prop :=
  0 <= c_peripheral c < 256 /\ 0 <= c_opcode c < 256 /\
  0 <= c_size c < 65536 /\
  match c_data c with
  | None => True
  | Some src =>
      Z.of_nat (length src) = c_size c /\ Forall (fun b => 0 <= b < 256) src
  end.

(* the sub-packet a call asks to queue; a null [data] stands for zeros *)
Definition queued (c : enq_call) : x8h7_pkt_t :=
  {| peripheral := c_peripheral c;
     opcode := c_opcode c;
     size := c_size c;
     data := match c_data c with
             | None => repeat 0 (Z.to_nat (c_size c))
             | Some src => src
             end |}.

Definition enq (c : enq_call) (s : spidev_data) : Z * spidev_data :=
  x8h7_pkt_enq (c_peripheral c) (c_opcode c) (c_size c) (c_data c) s.

(* return codes of the calls, and the state after the last one *)
Fixpoint enq_all (cs : list enq_call) (s : spidev_data)
    : list Z * spidev_data :=
  match cs with
  | [] => ([], s)
  | c :: cs' =>
      let '(r, s1) := enq c s in
      let '(rs, s2) := enq_all cs' s1 in
      (r :: rs, s2)
  end.

Definition encoded_size (c : enq_call) : Z := sizeof_subpkt + c_size c.

Fixpoint total_size (cs : list enq_call) : Z :=
  match cs with
  | [] => 0
  | c :: cs' => encoded_size c + total_size cs'
  end.

(* wire image of one sub-packet and of a sequence of them *)
Definition encode (c : enq_call) : list Z :=
  [c_peripheral c; c_opcode c; c_size c mod 256; c_size c / 256]
    ++ data (queued c).

Fixpoint encode_all (cs : list enq_call) : list Z :=
  match cs with
  | [] => []
  | c :: cs' => encode c ++ encode_all cs'
  end.

(* hook calls that deliver the sub-packets of [cs] in order; a sub-packet
   whose peripheral has no hook is dropped *)
Definition delivered (hook hook_priv : Z -> Z) (cs : list enq_call)
    : list call :=
  flat_map (fun c =>
              let i := c_peripheral c in
              if hook i =? 0 then []
              else [HookCall i (hook i) (hook_priv i) (queued c)]) cs.

(* the bytes of [l] sit in [m] from offset [p] on *)
Definition holds (m : mem) (p : Z) (l : list Z) : Prop :=
  forall k, 0 <= k < Z.of_nat (length l) ->
            load8 m (p + k) = nth (Z.to_nat k) l 0.

Definition buffer_zero (m : mem) : Prop :=
  forall q, 0 <= q < X8H7_BUF_SIZE -> load8 m q = 0.

(* both buffers and the pending length as x8h7_probe leaves them *)
Definition buffers_reset (d : driver) : Prop :=
  buffer_zero (x8h7_txb (x8h7_spidev d)) /\
  buffer_zero (x8h7_rxb (x8h7_spidev d)) /\
  hdr_size (x8h7_txb (x8h7_spidev d)) = 0 /\
  hdr_checksum (x8h7_txb (x8h7_spidev d)) = 0 /\
  x8h7_txl (x8h7_spidev d) = 0.

(* every read range lies inside the buffer *)
Definition reads_in_buffer (rs : list (Z * Z)) : Prop :=
  Forall (fun r => 0 <= fst r /\ fst r + snd r <= X8H7_BUF_SIZE) rs.

(** ** The records of a received frame, by the wire layout alone *)

(* offsets of the sub-packet records met when walking [size] bytes of
   payload from [ptr], each record giving the distance to the next *)
Fixpoint records (fuel : nat) (rxb : mem) (ptr size : Z) : list Z :=
  match fuel with
  | O => []
  | S fuel' =>
      let size' := u16 (size - (sizeof_subpkt + pkt_size rxb ptr)) in
      ptr :: (if size' >? 0
              then records fuel' rxb (ptr + sizeof_subpkt + pkt_size rxb ptr) size'
              else [])
  end.

(* the terminator as the specification words it, and as pkt_dump tests
   it on every record *)
Definition spec_terminator (rxb : mem) (pkt : Z) : bool :=
  (pkt_peripheral rxb pkt =? 0) || (pkt_size rxb pkt =? 0).

(* the records at which the dispatch loop returns *)
Definition terminator (rxb : mem) (pkt : Z) : bool :=
  (pkt_peripheral rxb pkt =? 0)
  || ((pkt_peripheral rxb pkt <? X8H7_PERIPH_NUM) && (pkt_size rxb pkt =? 0)).

Fixpoint before (stop : Z -> bool) (l : list Z) : list Z :=
  match l with
  | [] => []
  | p :: l' => if stop p then [] else p :: before stop l'
  end.

(* what one record contributes when the loop does not return at it: the
   hook call, if its peripheral has a hook, and the ranges read for it *)
Definition dispatch (hook hook_priv : Z -> Z) (rxb : mem) (pkt : Z)
    : list call * list (Z * Z) :=
  let i := pkt_peripheral rxb pkt in
  if (i <? X8H7_PERIPH_NUM) && negb (hook i =? 0) then
    let p := hook_pkt rxb pkt in
    ([HookCall i (hook i) (hook_priv i) p], hook_reads rxb pkt)
  else ([], []).

(* a call that a peer can route: peripheral id in [1, 16) and a payload *)
Definition routable (c : enq_call) : Prop :=
  valid_call c /\ 1 <= c_peripheral c < X8H7_PERIPH_NUM /\ c_size c <> 0.

(* every read range lies between the offsets [lo] and [hi] *)
Definition reads_within (lo hi : Z) (rs : list (Z * Z)) : Prop :=
  Forall (fun r => lo <= fst r /\ fst r + snd r <= hi) rs.

(** ** The exchange seen from outside *)

(* an SPI controller that answers every transfer with status [ret] and
   shifts in the bytes [rx] *)
Definition spi_reply (ret : Z) (rx : list Z) : list Z -> Z * list Z :=
  fun _ => (ret, rx).

(* the receive buffer as the transfer of [x8h7_pkt_send] leaves it *)
Definition received (spi_sync : list Z -> Z * list Z) (d : driver) : mem :=
  snd (x8h7_spi_trx spi_sync (x8h7_txb (x8h7_spidev d))
         (x8h7_rxb (x8h7_spidev d)) FIXED_PACKET_LEN).

(* the dispatch loop is still running after [fuel] iterations *)
Definition dispatch_pending (spi_sync : list Z -> Z * list Z) (fuel : nat)
    (d : driver) : Prop :=
  hdr_size (received spi_sync d) <> 0 /\ x8h7_dbg d = 0 /\
  pr_returned (pkt_parse fuel (x8h7_hook d) (x8h7_hook_priv d)
                 (received spi_sync d)) = false.

Definition after_exchange (spi_sync : list Z -> Z * list Z) (fuel : nat)
    (d : driver) (o : option (Z * driver)) : Prop :=
  match o with
  | Some (_, d') => buffers_reset d'
  | None => dispatch_pending spi_sync fuel d
  end.

(** ** Concrete inputs used below *)

Definition hooks12 : Z -> Z :=
  fun i => if i =? 1 then 0x1000 else if i =? 2 then 0x2000 else 0.

(** ** The outgoing frame between two entry points *)

(* the header test of pkt_dump: [err] *)
Definition hdr_err (m : mem) : bool :=
  negb (hdr_size m =? 0)
  && negb (Z.lxor (hdr_size m) 0x5555 =? hdr_checksum m).

(* pkt_dump as compiled with DEBUG: the offsets of the records it prints;
   [None]: the loop has not returned within [fuel] iterations *)
Fixpoint pkt_dump_loop (fuel : nat) (data : mem) (ptr len : Z)
  : option (list Z) :=
  match fuel with
  | O => None
  | S fuel' =>
      if len >? 0 then
        let pkt := ptr in
        if (pkt_peripheral data pkt =? 0) || (pkt_size data pkt =? 0)
        then Some []
        else
          option_map (cons pkt)
            (pkt_dump_loop fuel' data
               (ptr + sizeof_subpkt + pkt_size data pkt)
               (u16 (len - (sizeof_subpkt + pkt_size data pkt))))
      else Some []
  end.

Definition pkt_dump (fuel : nat) (data : mem) : option (list Z) :=
  if hdr_err data then Some []
  else pkt_dump_loop fuel data sizeof_pkthdr (hdr_size data).

(* the bytes x8h7_pkt_send hands to the transfer *)
Definition transmitted (s : spidev_data) : list Z :=
  read_bytes (x8h7_txb s) 0 (Z.to_nat FIXED_PACKET_LEN).

(* header of a frame whose payload is [n] bytes long *)
Definition header_bytes (n : Z) : list Z :=
  if n =? 0 then [0; 0; 0; 0]
  else [n mod 256; n / 256;
        Z.lxor n 0x5555 mod 256; Z.lxor n 0x5555 / 256].

(* a whole frame: header, the records of [cs] in order, zero fill *)
Definition frame_image (cs : list enq_call) : list Z :=
  header_bytes (total_size cs) ++ encode_all cs
    ++ repeat 0 (Z.to_nat (X8H7_BUF_SIZE - sizeof_pkthdr - total_size cs)).

(* the calls of [cs] made one after the other through x8h7_pkt_send_defer:
   their return values and the state after the last *)
Fixpoint defer_all (cs : list enq_call) (d : driver) : list Z * driver :=
  match cs with
  | [] => ([], d)
  | c :: cs' =>
      let '(r, d1) := x8h7_pkt_send_defer (c_peripheral c) (c_opcode c)
                        (c_size c) (c_data c) d in
      let '(rs, d2) := defer_all cs' d1 in
      (r :: rs, d2)
  end.

(* a controller that shifts back in the bytes it is given, so that what
   is received records what was transmitted *)
Definition spi_echo : list Z -> Z * list Z := fun tx => (0, tx).

(* what holds of the buffers whenever no entry point is running, as long
   as every record was stored inside the outgoing buffer *)
Definition idle_invariant (d : driver) : Prop :=
  let s := x8h7_spidev d in
  sizeof_pkthdr + hdr_size (x8h7_txb s) <= X8H7_BUF_SIZE /\
  hdr_err (x8h7_txb s) = false /\
  x8h7_txl s = hdr_size (x8h7_txb s) /\
  (forall q, sizeof_pkthdr + hdr_size (x8h7_txb s) <= q < X8H7_BUF_SIZE ->
             load8 (x8h7_txb s) q = 0) /\
  buffer_zero (x8h7_rxb s).

(** ** Sequences of calls to the exported entry points *)

(** One call from a peripheral driver or one interrupt; an entry that runs
    an exchange carries the behaviour of the SPI controller during it. *)
Inductive op :=
| SendSync (spi_sync : list Z -> Z * list Z)
           (peripheral opcode size : Z) (data : option (list Z))
| SendDefer (peripheral opcode size : Z) (data : option (list Z))
| SendNow (spi_sync : list Z -> Z * list Z)
| Irq (spi_sync : list Z -> Z * list Z)
| HookSet (idx hook priv : Z)
| DbgSet (hook priv : Z).

Definition step (fuel : nat) (o : op) (d : driver) : option driver :=
  match o with
  | SendSync spi per opc sz dat =>
      option_map snd (x8h7_pkt_send_sync spi per opc sz dat fuel d)
  | SendDefer per opc sz dat => Some (snd (x8h7_pkt_send_defer per opc sz dat d))
  | SendNow spi => option_map snd (x8h7_pkt_send_now spi fuel d)
  | Irq spi => option_map snd (x8h7_threaded_isr spi fuel d)
  | HookSet idx hook priv => Some (snd (x8h7_hook_set idx hook priv d))
  | DbgSet hook priv => Some (snd (x8h7_dbg_set hook priv d))
  end.

Fixpoint run (fuel : nat) (ops : list op) (d : driver) : option driver :=
  match ops with
  | [] => Some d
  | o :: ops' =>
      match step fuel o d with
      | None => None
      | Some d1 => run fuel ops' d1
      end
  end.

(* the call passes the capacity test although header and records then need
   more than the buffer has: its record is stored past the end of the
   buffer, into memory that belongs to something else *)
Definition enq_overruns (size : Z) (s : spidev_data) : bool :=
  let n := hdr_size (x8h7_txb s) + sizeof_subpkt + u16 size in
  (n <? X8H7_BUF_SIZE) && (X8H7_BUF_SIZE <? sizeof_pkthdr + n).

Definition op_overruns (o : op) (d : driver) : bool :=
  match o with
  | SendSync _ _ _ sz _ => enq_overruns sz (x8h7_spidev d)
  | SendDefer _ _ sz _ => enq_overruns sz (x8h7_spidev d)
  | _ => false
  end.

(* no call of the sequence stores past the end of the outgoing buffer *)
Fixpoint stores_in_buffer (fuel : nat) (ops : list op) (d : driver) : bool :=
  match ops with
  | [] => true
  | o :: ops' =>
      negb (op_overruns o d)
      && match step fuel o d with
         | None => true
         | Some d1 => stores_in_buffer fuel ops' d1
         end
  end.

(* table index of a hook call *)
Definition call_idx (c : call) : option Z :=
  match c with
  | HookCall i _ _ _ => Some i
  | DbgCall _ _ _ _ => None
  end.

Definition not_for (idx : Z) (c : call) : bool :=
  match call_idx c with
  | Some i => negb (i =? idx)
  | None => true
  end.

(** ** The CAN peripheral driver, x8h7_can.c

    [x8h7_can.h] is not among the sources.  Its constants are the fields
    of [x8h7_can_h]; the layout of the frame message is the one the source
    states where it sends it ("4-Byte ID, 1-Byte Length and the required
    number of data bytes"), with the identifier little-endian like the
    fields of the transport.  The network stack is reduced to what the
    driver hands it: the frames passed to [netif_rx] and three counters
    (unbounded here; they are [unsigned long] in the source). *)

(* linux/can.h *)
Definition CAN_EFF_FLAG : Z := 0x80000000.
Definition CAN_RTR_FLAG : Z := 0x40000000.
Definition CAN_ERR_FLAG : Z := 0x20000000.
Definition CAN_SFF_MASK : Z := 0x000007FF.
Definition CAN_EFF_MASK : Z := 0x1FFFFFFF.

Definition EINVAL : Z := 22.
Definition EIO : Z := 5.

Definition u32 (v : Z) : Z := v mod 4294967296.

Record x8h7_can_h := {
  X8H7_CAN_FRAME_MAX_DATA_LEN : Z;
  X8H7_CAN_OC_SEND : Z;
  X8H7_CAN_OC_RECV : Z;
  X8H7_CAN_OC_STS : Z;
  X8H7_CAN_OC_FLT : Z;
  X8H7_STD_FLT_MAX : Z;
  X8H7_EXT_FLT_MAX : Z;
  (* sizeof and bytes of union x8h7_can_filter_message for idx, id, mask *)
  filter_message_size : Z;
  filter_message_buf : Z -> Z -> Z -> list Z
}.

Definition X8H7_CAN_HEADER_SIZE : Z := 5.

(* struct can_frame: can_id, can_dlc and the data bytes *)
Record can_frame := {
  can_id : Z;
  can_dlc : Z;
  can_data : list Z
}.

(* the [field] view of union x8h7_can_frame_message *)
Record x8h7_can_frame_message := {
  msg_id : Z;
  msg_len : Z;
  msg_data : list Z
}.

Definition le32 (v : Z) : list Z :=
  [v mod 256; v / 256 mod 256; v / 65536 mod 256; v / 16777216 mod 256].

Definition of_le32 (l : list Z) : Z :=
  nth 0 l 0 + 256 * nth 1 l 0 + 65536 * nth 2 l 0 + 16777216 * nth 3 l 0.

(* the [buf] view of the same union *)
Definition msg_buf (m : x8h7_can_frame_message) : list Z :=
  le32 (msg_id m) ++ [msg_len m] ++ msg_data m.

(* [n] bytes read from index [from] on.  A byte the list does not have
   reads as 0: in the source such a byte of pkt->data lies behind
   pkt->size and holds what the array held before, which is not
   modelled; the statements below are about payloads that hold every
   byte that is read. *)
Definition bytes_at (l : list Z) (from n : Z) : list Z :=
  map (fun i => nth (Z.to_nat from + i) l 0) (seq 0 (Z.to_nat n)).

Definition x8h7_can_frame_to_tx_obj (h : x8h7_can_h) (frame : can_frame)
    (x8h7_can_msg : x8h7_can_frame_message) : x8h7_can_frame_message :=
  let id :=
    if negb (Z.land (can_id frame) CAN_EFF_FLAG =? 0)
    then Z.lor CAN_EFF_FLAG (Z.land (can_id frame) CAN_EFF_MASK)
    else Z.land (can_id frame) CAN_SFF_MASK in
  let len :=
    if can_dlc frame <=? X8H7_CAN_FRAME_MAX_DATA_LEN h
    then can_dlc frame else X8H7_CAN_FRAME_MAX_DATA_LEN h in
  {| msg_id := id;
     msg_len := u8 len;
     (* memcpy(field.data, frame->data, field.len) *)
     msg_data := bytes_at (can_data frame) 0 (u8 len)
                   ++ skipn (Z.to_nat (u8 len)) (msg_data x8h7_can_msg) |}.

Record x8h7_can_priv := {
  periph : Z;
  tx_frame : x8h7_can_frame_message;
  tx_len : Z;
  std_flt : Z -> Z * Z;          (* can_id, can_mask *)
  ext_flt : Z -> Z * Z;
  rx_packets : Z;
  rx_bytes : Z;
  rx_dropped : Z;
  netif_rx : list can_frame       (* frames handed to the stack, in order *)
}.

(** The hook registered by x8h7_can_set_normal_mode. [alloc] tells whether
    alloc_can_skb gives a buffer; [status] stands for x8h7_can_status. *)
Definition x8h7_can_hook (h : x8h7_can_h)
    (status : x8h7_can_priv -> Z -> Z -> x8h7_can_priv) (alloc : bool)
    (priv : x8h7_can_priv) (pkt : x8h7_pkt_t) : x8h7_can_priv :=
  if opcode pkt =? X8H7_CAN_OC_RECV h then
    if size pkt <? X8H7_CAN_HEADER_SIZE then priv
    else if negb alloc then
      {| periph := periph priv; tx_frame := tx_frame priv;
         tx_len := tx_len priv;
         std_flt := std_flt priv; ext_flt := ext_flt priv;
         rx_packets := rx_packets priv; rx_bytes := rx_bytes priv;
         rx_dropped := rx_dropped priv + 1;
         netif_rx := netif_rx priv |}
    else
      (* memcpy(x8h7_can_msg.buf, pkt->data, X8H7_CAN_HEADER_SIZE) *)
      let hdr := bytes_at (data pkt) 0 X8H7_CAN_HEADER_SIZE in
      let id := of_le32 hdr in
      let dlc := nth 4 hdr 0 in
      let frame :=
        {| can_id := id; can_dlc := dlc;
           can_data := bytes_at (data pkt) X8H7_CAN_HEADER_SIZE dlc |} in
      {| periph := periph priv; tx_frame := tx_frame priv;
         tx_len := tx_len priv;
         std_flt := std_flt priv; ext_flt := ext_flt priv;
         rx_packets := rx_packets priv + 1;
         rx_bytes := rx_bytes priv + dlc;
         rx_dropped := rx_dropped priv;
         netif_rx := netif_rx priv ++ [frame] |}
  else if opcode pkt =? X8H7_CAN_OC_STS h then
    status priv (nth 0 (data pkt) 0) (nth 1 (data pkt) 0)
  else priv.

Definition with_tx (priv : x8h7_can_priv) (m : x8h7_can_frame_message)
    (len : Z) : x8h7_can_priv :=
  {| periph := periph priv; tx_frame := m; tx_len := len;
     std_flt := std_flt priv; ext_flt := ext_flt priv;
     rx_packets := rx_packets priv; rx_bytes := rx_bytes priv;
     rx_dropped := rx_dropped priv; netif_rx := netif_rx priv |}.

Definition x8h7_can_tx_work_handler (h : x8h7_can_h)
    (spi_sync : list Z -> Z * list Z) (fuel : nat)
    (priv : x8h7_can_priv) (d : driver) : option (x8h7_can_priv * driver) :=
  let priv := with_tx priv (tx_frame priv) (msg_len (tx_frame priv)) in
  match x8h7_pkt_send_sync spi_sync (periph priv) (X8H7_CAN_OC_SEND h)
          (X8H7_CAN_HEADER_SIZE + msg_len (tx_frame priv))
          (Some (msg_buf (tx_frame priv))) fuel d with
  | None => None
  | Some (_, d') => Some (priv, d')
  end.

Definition x8h7_can_hw_config_filter (h : x8h7_can_h)
    (spi_sync : list Z -> Z * list Z) (fuel : nat)
    (priv : x8h7_can_priv) (idx id mask : Z) (d : driver)
    : option (Z * driver) :=
  match x8h7_pkt_send_sync spi_sync (periph priv) (X8H7_CAN_OC_FLT h)
          (filter_message_size h)
          (Some (filter_message_buf h idx id mask)) fuel d with
  | None => None
  | Some (_, d') => Some (0, d')
  end.

Definition with_std_flt (priv : x8h7_can_priv) (f : Z -> Z * Z)
    : x8h7_can_priv :=
  {| periph := periph priv; tx_frame := tx_frame priv; tx_len := tx_len priv;
     std_flt := f; ext_flt := ext_flt priv;
     rx_packets := rx_packets priv; rx_bytes := rx_bytes priv;
     rx_dropped := rx_dropped priv; netif_rx := netif_rx priv |}.

Definition with_ext_flt (priv : x8h7_can_priv) (f : Z -> Z * Z)
    : x8h7_can_priv :=
  {| periph := periph priv; tx_frame := tx_frame priv; tx_len := tx_len priv;
     std_flt := std_flt priv; ext_flt := f;
     rx_packets := rx_packets priv; rx_bytes := rx_bytes priv;
     rx_dropped := rx_dropped priv; netif_rx := netif_rx priv |}.

(** The filter attributes. [ret], [idx], [id], [mask] are what sscanf
    returned and stored for the three "%x" fields. *)
Definition x8h7_can_sf_store (h : x8h7_can_h)
    (spi_sync : list Z -> Z * list Z) (fuel : nat)
    (ret idx id mask : Z) (count : Z)
    (priv : x8h7_can_priv) (d : driver)
    : option (Z * x8h7_can_priv * driver) :=
  if negb (ret =? 3) then Some (- EINVAL, priv, d)
  else if (idx >=? X8H7_STD_FLT_MAX h)
          || negb (Z.land id (u32 (Z.lnot 0x7FF)) =? 0)
          || negb (Z.land mask (u32 (Z.lnot 0x7FF)) =? 0)
  then Some (- EINVAL, priv, d)
  else
    match x8h7_can_hw_config_filter h spi_sync fuel priv idx id mask d with
    | None => None
    | Some (ret, d') =>
        if negb (ret =? 0) then Some (- EIO, priv, d')
        else
          Some (count,
                with_std_flt priv
                  (fun j => if j =? idx then (id, mask) else std_flt priv j),
                d')
    end.

Definition x8h7_can_ef_store (h : x8h7_can_h)
    (spi_sync : list Z -> Z * list Z) (fuel : nat)
    (ret idx id mask : Z) (count : Z)
    (priv : x8h7_can_priv) (d : driver)
    : option (Z * x8h7_can_priv * driver) :=
  if negb (ret =? 3) then Some (- EINVAL, priv, d)
  else if (idx >=? X8H7_EXT_FLT_MAX h)
          || negb (Z.land id (u32 (Z.lnot 0x1FFFFFFF)) =? 0)
          || negb (Z.land mask (u32 (Z.lnot 0x1FFFFFFF)) =? 0)
  then Some (- EINVAL, priv, d)
  else
    match x8h7_can_hw_config_filter h spi_sync fuel priv idx
            (Z.lor CAN_EFF_FLAG id) mask d with
    | None => None
    | Some (ret, d') =>
        if negb (ret =? 0) then Some (- EIO, priv, d')
        else
          Some (count,
                with_ext_flt priv
                  (fun j => if j =? idx then (id, mask) else ext_flt priv j),
                d')
    end.

Definition with_can_id (frame : can_frame) (id : Z) : can_frame :=
  {| can_id := id; can_dlc := can_dlc frame; can_data := can_data frame |}.

(* a set of values for the constants of x8h7_can.h, for the examples *)
Definition can_h_example : x8h7_can_h :=
  {| X8H7_CAN_FRAME_MAX_DATA_LEN := 8;
     X8H7_CAN_OC_SEND := 1; X8H7_CAN_OC_RECV := 2; X8H7_CAN_OC_STS := 3;
     X8H7_CAN_OC_FLT := 4;
     X8H7_STD_FLT_MAX := 32; X8H7_EXT_FLT_MAX := 32;
     filter_message_size := 12;
     filter_message_buf := fun idx id mask => le32 idx ++ le32 id ++ le32 mask |}.

Definition can_priv_example : x8h7_can_priv :=
  {| periph := 3;
     tx_frame := {| msg_id := 0; msg_len := 0; msg_data := repeat 0 8 |};
     tx_len := 0;
     std_flt := fun _ => (0, 0); ext_flt := fun _ => (0, 0);
     rx_packets := 0; rx_bytes := 0; rx_dropped := 0; netif_rx := [] |}.

(* whether the three scanned fields pass the test of a filter attribute
   whose table has [max] entries and whose identifiers have mask [bits] *)
Definition filter_params_ok (ret idx id mask max bits : Z) : bool :=
  (ret =? 3) && (idx <? max) && (id <=? bits) && (mask <=? bits).

(** * Properties *)

(* case analysis on the comparisons of a goal *)
Ltac bool_cases :=
  repeat match goal with
         | |- context [?a =? ?b] => destruct (Z.eqb_spec a b)
         | |- context [?a <=? ?b] => destruct (Z.leb_spec a b)
         | |- context [?a <? ?b] => destruct (Z.ltb_spec a b)
         end;
  simpl; try reflexivity; try lia.

Ltac bool_split :=
  repeat match goal with
         | |- context [?a =? ?b] => destruct (Z.eqb_spec a b)
         | |- context [?a <=? ?b] => destruct (Z.leb_spec a b)
         | |- context [?a <? ?b] => destruct (Z.ltb_spec a b)
         end;
  cbn [andb orb negb]; try lia.


(** ** Integers and memory *)

Lemma u8_range v : 0 <= u8 v < 256.
Proof. unfold u8. apply Z.mod_pos_bound. lia. Qed.

Lemma u16_range v : 0 <= u16 v < 65536.
Proof. unfold u16. apply Z.mod_pos_bound. lia. Qed.

Lemma u8_small v : 0 <= v < 256 -> u8 v = v.
Proof. intros. unfold u8. apply Z.mod_small. lia. Qed.

Lemma u16_small v : 0 <= v < 65536 -> u16 v = v.
Proof. intros. unfold u16. apply Z.mod_small. lia. Qed.

Lemma u8_u8 v : u8 (u8 v) = u8 v.
Proof. apply u8_small, u8_range. Qed.

Lemma load8_range m p : 0 <= load8 m p < 256.
Proof. apply u8_range. Qed.

Lemma load16_range m p : 0 <= load16 m p < 65536.
Proof.
  unfold load16. pose proof (load8_range m p). pose proof (load8_range m (p + 1)).
  lia.
Qed.

Lemma load8_store8 m p v q :
  load8 (store8 m p v) q = if q =? p then u8 v else load8 m q.
Proof.
  unfold load8, store8. destruct (q =? p); [apply u8_u8 | reflexivity].
Qed.

Lemma u16_lo_hi v : u8 (u16 v) + 256 * u8 (u16 v / 256) = u16 v.
Proof.
  pose proof (u16_range v) as H. unfold u8.
  rewrite (Z.mod_small (u16 v / 256)).
  - rewrite (Z.div_mod (u16 v) 256) at 3 by lia. lia.
  - split; [apply Z.div_pos; lia | apply Z.div_lt_upper_bound; lia].
Qed.

Lemma load8_store16 m p v q :
  load8 (store16 m p v) q =
  if q =? p + 1 then u8 (u16 v / 256)
  else if q =? p then u8 (u16 v) else load8 m q.
Proof. unfold store16. now rewrite !load8_store8. Qed.

Lemma load16_store16_same m p v : load16 (store16 m p v) p = u16 v.
Proof.
  unfold load16. rewrite !load8_store16.
  rewrite Z.eqb_refl.
  replace (p =? p + 1) with false by (symmetry; apply Z.eqb_neq; lia).
  rewrite Z.eqb_refl. apply u16_lo_hi.
Qed.

Lemma load8_memset m p c n q :
  load8 (memset m p c n) q =
  if (p <=? q) && (q <? p + n) then u8 c else load8 m q.
Proof.
  unfold load8, memset. destruct ((p <=? q) && (q <? p + n));
    [apply u8_u8 | reflexivity].
Qed.

Lemma load8_memcpy m p src n q :
  load8 (memcpy m p src n) q =
  if (p <=? q) && (q <? p + n)
  then u8 (nth (Z.to_nat (q - p)) src 0) else load8 m q.
Proof.
  unfold load8, memcpy. destruct ((p <=? q) && (q <? p + n));
    [apply u8_u8 | reflexivity].
Qed.

(* two memories that agree on the two bytes of a 16-bit field *)
Lemma load16_ext m m' p :
  load8 m' p = load8 m p -> load8 m' (p + 1) = load8 m (p + 1) ->
  load16 m' p = load16 m p.
Proof. unfold load16. now intros -> ->. Qed.

Lemma length_read_bytes m p n : length (read_bytes m p n) = n.
Proof. unfold read_bytes. now rewrite length_map, length_seq. Qed.

Lemma nth_read_bytes m p n k :
  (k < n)%nat -> nth k (read_bytes m p n) 0 = load8 m (p + Z.of_nat k).
Proof.
  intros Hk. unfold read_bytes.
  rewrite (nth_indep _ 0 (load8 m (p + Z.of_nat 0)))
    by now rewrite length_map, length_seq.
  rewrite (map_nth (fun i => load8 m (p + Z.of_nat i)) (seq 0 n) 0%nat k).
  now rewrite seq_nth by assumption.
Qed.

Lemma read_bytes_holds m p l : holds m p l -> read_bytes m p (length l) = l.
Proof.
  intros H. apply (nth_ext _ _ 0 0).
  - apply length_read_bytes.
  - rewrite length_read_bytes. intros k Hk.
    rewrite nth_read_bytes by assumption.
    rewrite H by lia. now rewrite Nat2Z.id.
Qed.

Lemma read_bytes_ext m m' p n :
  (forall k, 0 <= k < Z.of_nat n -> load8 m' (p + k) = load8 m (p + k)) ->
  read_bytes m' p n = read_bytes m p n.
Proof.
  intros H. unfold read_bytes. apply map_ext_in.
  intros i Hi. apply in_seq in Hi. apply H. lia.
Qed.

Lemma lxor_u16 a b :
  0 <= a < 65536 -> 0 <= b < 65536 -> 0 <= Z.lxor a b < 65536.
Proof.
  intros Ha Hb.
  assert (Hnn : 0 <= Z.lxor a b) by (apply Z.lxor_nonneg; lia).
  split; [assumption |].
  destruct (Z.eq_dec (Z.lxor a b) 0) as [-> | Hz]; [lia |].
  apply (Z.log2_lt_pow2 _ 16); [lia |].
  assert (Hl : Z.log2 (Z.lxor a b) <= Z.max (Z.log2 a) (Z.log2 b))
    by (apply Z.log2_lxor; lia).
  assert (Z.log2 a < 16).
  { destruct (Z.eq_dec a 0) as [-> | ?]; [simpl; lia |].
    apply Z.log2_lt_pow2; lia. }
  assert (Z.log2 b < 16).
  { destruct (Z.eq_dec b 0) as [-> | ?]; [simpl; lia |].
    apply Z.log2_lt_pow2; lia. }
  lia.
Qed.

Lemma u16_u16 v : u16 (u16 v) = u16 v.
Proof. apply u16_small, u16_range. Qed.

(** ** x8h7_pkt_enq *)

Lemma enq_reject per opc sz dat s :
  X8H7_BUF_SIZE <= hdr_size (x8h7_txb s) + sizeof_subpkt + u16 sz ->
  x8h7_pkt_enq per opc sz dat s = (- ENOMEM, s).
Proof.
  intros Hg. unfold x8h7_pkt_enq.
  destruct (_ <? _) eqn:G; [apply Z.ltb_lt in G; lia | reflexivity].
Qed.

(** What an accepted call leaves in the buffer: the header is updated and
    the record is written right after the records already queued, wherever
    that is. *)
Lemma enq_accept per opc sz dat s :
  hdr_size (x8h7_txb s) + sizeof_subpkt + u16 sz < X8H7_BUF_SIZE ->
  exists txb',
    x8h7_pkt_enq per opc sz dat s =
      (0, {| x8h7_txb := txb'; x8h7_txl := hdr_size txb';
             x8h7_rxb := x8h7_rxb s |}) /\
    hdr_size txb' = hdr_size (x8h7_txb s) + sizeof_subpkt + u16 sz /\
    hdr_checksum txb' = Z.lxor (hdr_size txb') 0x5555 /\
    (forall q, 4 <= q ->
       load8 txb' q =
       let pkt := sizeof_pkthdr + hdr_size (x8h7_txb s) in
       if q =? pkt then u8 per
       else if q =? pkt + 1 then u8 opc
       else if q =? pkt + 2 then u8 (u16 sz)
       else if q =? pkt + 3 then u8 (u16 sz / 256)
       else if (pkt + 4 <=? q) && (q <? pkt + 4 + u16 sz)
            then match dat with
                 | None => 0
                 | Some src => u8 (nth (Z.to_nat (q - (pkt + 4))) src 0)
                 end
            else load8 (x8h7_txb s) q).
Proof.
  intros Hg. unfold x8h7_pkt_enq.
  destruct (_ <? _) eqn:G; [clear G | apply Z.ltb_ge in G; lia].
  cbv zeta.
  set (T := hdr_size (x8h7_txb s)) in *.
  pose proof (load16_range (x8h7_txb s) 0) as HT.
  fold (hdr_size (x8h7_txb s)) in HT. fold T in HT.
  pose proof (u16_range sz) as Hsz.
  unfold sizeof_subpkt, sizeof_pkthdr, X8H7_BUF_SIZE in *.
  match goal with |- context [store16 (store16 ?m 0 _) 2 _] => set (m3 := m) end.
  assert (H3 : forall q, load8 m3 q =
       let pkt := 4 + T in
       if q =? pkt then u8 per
       else if q =? pkt + 1 then u8 opc
       else if q =? pkt + 2 then u8 (u16 sz)
       else if q =? pkt + 3 then u8 (u16 sz / 256)
       else if (pkt + 4 <=? q) && (q <? pkt + 4 + u16 sz)
            then match dat with
                 | None => 0
                 | Some src => u8 (nth (Z.to_nat (q - (pkt + 4))) src 0)
                 end
            else load8 (x8h7_txb s) q).
  { intros q. subst m3. cbv zeta.
    destruct (u16 sz =? 0) eqn:Z0.
    - apply Z.eqb_eq in Z0. rewrite load8_store16, !load8_store8, !u8_u8.
      rewrite Z0. bool_cases.
    - destruct dat as [src |].
      + rewrite load8_memcpy, load8_store16, !load8_store8, !u8_u8, !u16_u16.
        bool_cases.
      + rewrite load8_memset, load8_store16, !load8_store8, !u8_u8, !u16_u16.
        bool_cases. }
  assert (HT3 : hdr_size m3 = T).
  { unfold hdr_size. apply load16_ext; rewrite H3; cbv zeta; bool_cases. }
  clearbody m3.
  eexists. split; [reflexivity |].
  set (m4 := store16 m3 0 _).
  assert (H4 : hdr_size m4 = T + 4 + u16 sz).
  { unfold hdr_size, m4. rewrite load16_store16_same, HT3, u16_small; lia. }
  assert (H5 : hdr_size (store16 m4 2 (Z.lxor (hdr_size m4) 21845)) = hdr_size m4).
  { unfold hdr_size at 1 3. apply load16_ext; rewrite load8_store16; bool_cases. }
  split; [| split].
  - now rewrite H5.
  - rewrite H5. unfold hdr_checksum. rewrite load16_store16_same.
    apply u16_small. apply lxor_u16; lia.
  - intros q Hq. cbv zeta. rewrite load8_store16.
    unfold m4. rewrite load8_store16. rewrite H3. cbv zeta. bool_cases.
Qed.

(* the only return values are 0 and -ENOMEM, chosen by the capacity test *)
Lemma enq_ret per opc sz dat s :
  fst (x8h7_pkt_enq per opc sz dat s) =
  if hdr_size (x8h7_txb s) + sizeof_subpkt + u16 sz <? X8H7_BUF_SIZE
  then 0 else - ENOMEM.
Proof. unfold x8h7_pkt_enq. now destruct (_ <? _). Qed.

(** C2. An enqueue call that would make [header.size + 4 + payload_size]
    reach the frame capacity returns [-ENOMEM] and hands back the state it
    was given: header, checksum and every queued byte are untouched. *)
Theorem enq_over_capacity_rejected per opc sz dat s :
  0 <= sz < 65536 ->
  hdr_size (x8h7_txb s) + 4 + sz >= X8H7_BUF_SIZE ->
  x8h7_pkt_enq per opc sz dat s = (- ENOMEM, s).
Proof.
  intros Hsz Hfull. apply enq_reject.
  rewrite u16_small by assumption. unfold sizeof_subpkt. lia.
Qed.

Lemma enq_over_capacity_rejected_witness :
  x8h7_pkt_enq 3 0x20 252 None spidev_init = (- ENOMEM, spidev_init).
Proof.
  apply enq_over_capacity_rejected; [lia | vm_compute; discriminate].
Defined.

(** C9. After every successful [x8h7_pkt_enq] the header checksum equals
    the header size XOR 0x5555 (and the pending length equals the header
    size); enqueuing {1, 0x10, [0xAA,0xBB]} and then {2, 0x01, []} into an
    empty buffer gives size 10 and checksum 0x555F. *)
Theorem enq_header_checksum :
  (forall per opc sz dat s s',
      x8h7_pkt_enq per opc sz dat s = (0, s') ->
      hdr_checksum (x8h7_txb s') = Z.lxor (hdr_size (x8h7_txb s')) 0x5555 /\
      x8h7_txl s' = hdr_size (x8h7_txb s')) /\
  (let s1 := snd (x8h7_pkt_enq 1 0x10 2 (Some [0xAA; 0xBB]) spidev_init) in
   let s2 := snd (x8h7_pkt_enq 2 0x01 0 (Some []) s1) in
   hdr_size (x8h7_txb s2) = 10 /\ hdr_checksum (x8h7_txb s2) = 0x555F /\
   read_bytes (x8h7_txb s2) 0 14 =
     [10; 0; 0x5F; 0x55; 1; 0x10; 2; 0; 0xAA; 0xBB; 2; 0x01; 0; 0]).
Proof.
  split.
  - intros per opc sz dat s s' H.
    destruct (Z.ltb_spec (hdr_size (x8h7_txb s) + sizeof_subpkt + u16 sz)
                X8H7_BUF_SIZE) as [Hg | Hg].
    + destruct (enq_accept per opc sz dat s Hg) as (txb' & E & _ & Hc & _).
      rewrite E in H. injection H as <-. simpl. now split.
    + rewrite enq_reject in H by assumption. discriminate.
  - vm_compute. repeat split.
Qed.

Lemma enq_header_checksum_witness :
  let s' := snd (x8h7_pkt_enq 1 0x10 2 (Some [0xAA; 0xBB]) spidev_init) in
  hdr_checksum (x8h7_txb s') = Z.lxor (hdr_size (x8h7_txb s')) 0x5555 /\
  x8h7_txl s' = hdr_size (x8h7_txb s').
Proof.
  apply (proj1 enq_header_checksum 1 0x10 2 (Some [0xAA; 0xBB]) spidev_init).
  apply surjective_pairing.
Defined.

(** ** pkt_parse *)

(** One iteration of the loop, by cases on the record under [ptr]. *)
Lemma pkt_parse_loop_step fuel hook privs rxb ptr size :
  pkt_parse_loop (S fuel) hook privs rxb ptr size =
  if terminator rxb ptr
  then parse_more []
         (if pkt_peripheral rxb ptr =? 0
          then [(ptr, 1)] else [(ptr, 1); (ptr + 2, 2)])
         parse_return
  else
    let size' := u16 (size - (sizeof_subpkt + pkt_size rxb ptr)) in
    parse_more (fst (dispatch hook privs rxb ptr))
      ([(ptr, 1); (ptr + 2, 2)] ++ snd (dispatch hook privs rxb ptr))
      (if size' >? 0
       then pkt_parse_loop fuel hook privs rxb
              (ptr + sizeof_subpkt + pkt_size rxb ptr) size'
       else parse_return).
Proof.
  cbn [pkt_parse_loop]. unfold terminator, dispatch. cbv zeta.
  destruct (pkt_peripheral rxb ptr <? X8H7_PERIPH_NUM) eqn:Hi.
  - rewrite andb_true_l.
    destruct (pkt_peripheral rxb ptr =? 0) eqn:H0; [reflexivity |].
    rewrite !orb_false_l.
    destruct (pkt_size rxb ptr =? 0); [reflexivity |].
    destruct (negb (hook (pkt_peripheral rxb ptr) =? 0)); reflexivity.
  - rewrite andb_false_l, orb_false_r.
    destruct (pkt_peripheral rxb ptr =? 0) eqn:H0; [| reflexivity].
    apply Z.eqb_eq in H0. rewrite H0 in Hi. discriminate.
Qed.

Lemma terminator_spec rxb pkt :
  terminator rxb pkt = true <->
  pkt_peripheral rxb pkt = 0 \/
  (pkt_peripheral rxb pkt < X8H7_PERIPH_NUM /\ pkt_size rxb pkt = 0).
Proof.
  unfold terminator.
  rewrite orb_true_iff, andb_true_iff, !Z.eqb_eq, Z.ltb_lt. reflexivity.
Qed.

(** The hook calls of the loop are those of the records that precede the
    first terminator, in wire order. *)
Lemma pkt_parse_loop_calls fuel hook privs rxb : forall ptr size,
  pr_calls (pkt_parse_loop fuel hook privs rxb ptr size) =
  flat_map (fun pkt => fst (dispatch hook privs rxb pkt))
    (before (terminator rxb) (records fuel rxb ptr size)).
Proof.
  induction fuel as [| fuel IH]; intros ptr size; [reflexivity |].
  rewrite pkt_parse_loop_step. cbn [records before].
  destruct (terminator rxb ptr); [reflexivity |].
  cbv zeta. cbn [flat_map parse_more pr_calls]. f_equal.
  destruct (_ >? 0); [apply IH | reflexivity].
Qed.

(* a dispatched record is addressed to a hooked peripheral in [0, 16) and
   its copy never exceeds the array of x8h7_pkt_t *)
Lemma dispatch_call hook privs rxb pkt c :
  In c (fst (dispatch hook privs rxb pkt)) ->
  exists p,
    c = HookCall (pkt_peripheral rxb pkt) (hook (pkt_peripheral rxb pkt))
          (privs (pkt_peripheral rxb pkt)) p /\
    pkt_peripheral rxb pkt < X8H7_PERIPH_NUM /\
    hook (pkt_peripheral rxb pkt) <> 0 /\
    0 <= size p <= X8H7_PKT_SIZE /\
    Z.of_nat (length (data p)) = size p.
Proof.
  unfold dispatch. cbv zeta.
  destruct (pkt_peripheral rxb pkt <? X8H7_PERIPH_NUM) eqn:Hi; [| intros []].
  destruct (hook (pkt_peripheral rxb pkt) =? 0) eqn:Hh; [intros [] |].
  cbn [andb negb fst In]. intros [<- | []].
  eexists. split; [reflexivity |].
  apply Z.ltb_lt in Hi. apply Z.eqb_neq in Hh.
  unfold hook_pkt. cbn [size data]. rewrite length_read_bytes.
  pose proof (load16_range rxb (pkt + 2)).
  unfold pkt_size, X8H7_PKT_SIZE, X8H7_BUF_SIZE.
  destruct (Z.gtb_spec (load16 rxb (pkt + 2)) (256 - 8));
    repeat split; try assumption; lia.
Qed.

Lemma before_In stop p l : In p (before stop l) -> stop p = false /\ In p l.
Proof.
  induction l as [| a l IH]; cbn [before]; [intros [] |].
  destruct (stop a) eqn:Ha; [intros [] |].
  intros [<- | H]; [split; [assumption | now left] |].
  destruct (IH H). split; [assumption | now right].
Qed.

(* every call made by the loop is a hook call for a peripheral in [1, 16),
   with a payload copy that fits x8h7_pkt_t *)
Lemma pkt_parse_loop_hook_calls fuel hook privs rxb ptr left c :
  In c (pr_calls (pkt_parse_loop fuel hook privs rxb ptr left)) ->
  exists i p,
    c = HookCall i (hook i) (privs i) p /\
    1 <= i < X8H7_PERIPH_NUM /\ hook i <> 0 /\
    0 <= size p <= X8H7_PKT_SIZE /\ Z.of_nat (length (data p)) = size p.
Proof.
  rewrite pkt_parse_loop_calls. intros H.
  apply in_flat_map in H as (pkt & Hb & Hc).
  apply before_In in Hb as [Ht _].
  apply dispatch_call in Hc as (p & -> & Hi & Hh & Hs & Hl).
  exists (pkt_peripheral rxb pkt), p. repeat split; try assumption; try lia.
  destruct (Z.eq_dec (pkt_peripheral rxb pkt) 0) as [E | N].
  - assert (terminator rxb pkt = true) by (apply terminator_spec; now left).
    congruence.
  - pose proof (load8_range rxb pkt). unfold pkt_peripheral in *. lia.
Qed.

Lemma pkt_parse_calls fuel hook privs rxb :
  pr_calls (pkt_parse fuel hook privs rxb) =
  pr_calls (pkt_parse_loop fuel hook privs rxb sizeof_pkthdr (hdr_size rxb)).
Proof. reflexivity. Qed.

(** What the loop does do: its hook calls are exactly those of the records
    that come before the first record whose peripheral id is 0, or whose
    peripheral id is below 16 and whose payload size is 0. *)
Theorem parse_stops_at_terminator fuel hook privs rxb :
  pr_calls (pkt_parse fuel hook privs rxb) =
  flat_map (fun pkt => fst (dispatch hook privs rxb pkt))
    (before (terminator rxb)
       (records fuel rxb sizeof_pkthdr (hdr_size rxb))).
Proof. rewrite pkt_parse_calls. apply pkt_parse_loop_calls. Qed.

(** C8 (the code departs from it). In this frame the first record has
    payload size 0, and peripheral id 16; it is a terminator by the test
    [pkt->peripheral == 0 || pkt->size == 0], at which [pkt_dump] stops
    walking the same buffer, without printing a record; but [pkt_parse]
    makes that test only for peripheral ids below 16: it steps over the
    record and dispatches the one after it to the hook of peripheral 1. *)
Lemma zero_size_record_does_not_stop :
  let rxb := mem_of_list [10; 0; 0x5F; 0x55; 16; 0; 0; 0;
                          1; 7; 2; 0; 0xAA; 0xBB] in
  records 64 rxb sizeof_pkthdr (hdr_size rxb) = [4; 8] /\
  pkt_size rxb 4 = 0 /\
  spec_terminator rxb 4 = true /\
  pkt_dump 64 rxb = Some [] /\
  pr_calls (pkt_parse 64 hooks12 no_hook rxb) =
    [HookCall 1 0x1000 0
       {| peripheral := 1; opcode := 7; size := 2; data := [0xAA; 0xBB] |}] /\
  pr_calls (pkt_parse 64 hooks12 no_hook rxb) <>
    flat_map (fun pkt => fst (dispatch hooks12 no_hook rxb pkt))
      (before (spec_terminator rxb)
         (records 64 rxb sizeof_pkthdr (hdr_size rxb))).
Proof. vm_compute. repeat split. discriminate. Qed.

(** ** x8h7_hook_set *)

Lemma hook_set_ok idx hook priv d :
  0 <= idx < X8H7_PERIPH_NUM ->
  fst (x8h7_hook_set idx hook priv d) = 0 /\
  x8h7_hook (snd (x8h7_hook_set idx hook priv d)) idx = hook /\
  x8h7_hook_priv (snd (x8h7_hook_set idx hook priv d)) idx = priv.
Proof.
  intros H. unfold x8h7_hook_set, X8H7_PERIPH_NUM in *.
  rewrite u8_small by lia.
  destruct (idx >=? 16) eqn:G; [apply Z.geb_le in G; lia |].
  cbn. now rewrite Z.eqb_refl.
Qed.

Lemma hook_set_fail idx hook priv d :
  X8H7_PERIPH_NUM <= idx < 256 ->
  x8h7_hook_set idx hook priv d = (-1, d).
Proof.
  intros H. unfold x8h7_hook_set, X8H7_PERIPH_NUM in *.
  rewrite u8_small by lia.
  destruct (idx >=? 16) eqn:G; [reflexivity |].
  rewrite Z.geb_leb in G. apply Z.leb_gt in G. lia.
Qed.

(** C10. [x8h7_hook_set] returns 0 and installs the hook exactly when
    [idx < 16], index 0 included, and otherwise returns -1 and changes
    nothing; but [pkt_parse] never calls the hook of index 0, whatever the
    received bytes. *)
Theorem hook_zero_registered_never_called idx hook priv d fuel rxb :
  0 <= idx < 256 ->
  let r := x8h7_hook_set idx hook priv d in
  (fst r = 0 <-> idx < X8H7_PERIPH_NUM) /\
  (idx < X8H7_PERIPH_NUM ->
   x8h7_hook (snd r) idx = hook /\ x8h7_hook_priv (snd r) idx = priv) /\
  (X8H7_PERIPH_NUM <= idx -> r = (-1, d)) /\
  (forall h pv p,
      ~ In (HookCall 0 h pv p)
          (pr_calls (pkt_parse fuel (x8h7_hook (snd r))
                       (x8h7_hook_priv (snd r)) rxb))).
Proof.
  intros Hidx r. subst r.
  destruct (Z.lt_ge_cases idx X8H7_PERIPH_NUM) as [Hlt | Hge].
  - destruct (hook_set_ok idx hook priv d) as (H0 & Hh & Hp); [lia |].
    repeat split; try assumption; try lia.
    intros h pv p Hin. rewrite pkt_parse_calls in Hin.
    apply pkt_parse_loop_hook_calls in Hin as (i & p' & E & Hi & _).
    injection E as <- _ _ _. lia.
  - rewrite hook_set_fail by lia. cbn [fst snd].
    repeat split; try lia.
    intros h pv p Hin. rewrite pkt_parse_calls in Hin.
    apply pkt_parse_loop_hook_calls in Hin as (i & p' & E & Hi & _).
    injection E as <- _ _ _. lia.
Qed.

Lemma hook_zero_registered_never_called_witness :
  let rxb := mem_of_list [6; 0; 0x53; 0x55; 0; 7; 2; 0; 0xAA; 0xBB] in
  let r := x8h7_hook_set 0 0x1000 0x77 driver_init in
  (fst r = 0 <-> 0 < X8H7_PERIPH_NUM) /\
  (0 < X8H7_PERIPH_NUM ->
   x8h7_hook (snd r) 0 = 0x1000 /\ x8h7_hook_priv (snd r) 0 = 0x77) /\
  (X8H7_PERIPH_NUM <= 0 -> r = (-1, driver_init)) /\
  (forall h pv p,
      ~ In (HookCall 0 h pv p)
          (pr_calls (pkt_parse 64 (x8h7_hook (snd r))
                       (x8h7_hook_priv (snd r)) rxb))).
Proof.
  intros rxb.
  apply (hook_zero_registered_never_called 0 0x1000 0x77 driver_init 64 rxb).
  lia.
Defined.

(** ** The exchange *)

Lemma memset_buffer_zero m : buffer_zero (memset m 0 0 X8H7_BUF_SIZE).
Proof.
  intros q Hq. rewrite load8_memset. unfold X8H7_BUF_SIZE in *. bool_cases.
Qed.

Lemma buffer_zero_hdr m :
  buffer_zero m -> hdr_size m = 0 /\ hdr_checksum m = 0.
Proof.
  intros H. unfold hdr_size, hdr_checksum, load16.
  rewrite !H by (unfold X8H7_BUF_SIZE; lia). now split.
Qed.

(** [x8h7_pkt_send] returns 0 whenever it returns, and then both buffers
    are zeroed; it does not return only while the dispatch loop runs. *)
Lemma x8h7_pkt_send_spec spi fuel d :
  match x8h7_pkt_send spi fuel d with
  | Some (r, d') =>
      r = 0 /\ buffers_reset d' /\
      x8h7_hook d' = x8h7_hook d /\ x8h7_dbg d' = x8h7_dbg d
  | None => dispatch_pending spi fuel d
  end.
Proof.
  unfold x8h7_pkt_send, dispatch_pending, received.
  destruct (x8h7_spi_trx spi _ _ FIXED_PACKET_LEN) as [ret rxb]. cbn [snd].
  assert (R : forall cs,
    buffers_reset
      {| x8h7_spidev :=
           {| x8h7_txb := memset (x8h7_txb (x8h7_spidev d)) 0 0 X8H7_BUF_SIZE;
              x8h7_txl := 0;
              x8h7_rxb := memset rxb 0 0 X8H7_BUF_SIZE |};
         x8h7_hook := x8h7_hook d; x8h7_hook_priv := x8h7_hook_priv d;
         x8h7_dbg := x8h7_dbg d; x8h7_dbg_priv := x8h7_dbg_priv d;
         calls := calls d ++ cs |}).
  { intros cs. unfold buffers_reset. cbn.
    pose proof (memset_buffer_zero (x8h7_txb (x8h7_spidev d))) as Ht.
    destruct (buffer_zero_hdr _ Ht).
    repeat split; try assumption. apply memset_buffer_zero. }
  assert (Done : forall cs r d',
    Some (r, d') =
      Some (0,
            {| x8h7_spidev :=
                 {| x8h7_txb := memset (x8h7_txb (x8h7_spidev d)) 0 0 X8H7_BUF_SIZE;
                    x8h7_txl := 0;
                    x8h7_rxb := memset rxb 0 0 X8H7_BUF_SIZE |};
               x8h7_hook := x8h7_hook d; x8h7_hook_priv := x8h7_hook_priv d;
               x8h7_dbg := x8h7_dbg d; x8h7_dbg_priv := x8h7_dbg_priv d;
               calls := calls d ++ cs |}) ->
    r = 0 /\ buffers_reset d' /\
    x8h7_hook d' = x8h7_hook d /\ x8h7_dbg d' = x8h7_dbg d).
  { intros cs r d' E. injection E as -> ->.
    split; [reflexivity | split; [apply R | split; reflexivity]]. }
  destruct (hdr_size rxb =? 0) eqn:Hs; cbn [negb].
  - eapply Done. reflexivity.
  - destruct (x8h7_dbg d =? 0) eqn:Hd; cbn [negb].
    + destruct (pr_returned _) eqn:Hr.
      * eapply Done. reflexivity.
      * apply Z.eqb_neq in Hs. apply Z.eqb_eq in Hd. now repeat split.
    + eapply Done. reflexivity.
Qed.

(** C5. Whichever entry point runs the exchange, once it is over both
    buffers hold only zero bytes (so the header is zero) and the pending
    length is 0, whatever the transfer reported and whatever was
    dispatched. An entry point fails to come back only while the dispatch
    loop has not returned; [x8h7_pkt_send_sync] runs no exchange when the
    enqueue is refused. *)
Theorem exchange_resets_buffers spi fuel d per opc sz dat :
  after_exchange spi fuel d (x8h7_pkt_send_now spi fuel d) /\
  after_exchange spi fuel d (x8h7_threaded_isr spi fuel d) /\
  (let enq := x8h7_pkt_enq per opc sz dat (x8h7_spidev d) in
   let d1 := with_spidev d (snd enq) in
   if fst enq <? 0
   then x8h7_pkt_send_sync spi per opc sz dat fuel d = Some (fst enq, d1)
   else after_exchange spi fuel d1 (x8h7_pkt_send_sync spi per opc sz dat fuel d)).
Proof.
  split; [| split].
  - unfold x8h7_pkt_send_now, after_exchange.
    pose proof (x8h7_pkt_send_spec spi fuel d) as H.
    destruct (x8h7_pkt_send spi fuel d) as [[r d'] |]; [apply H | exact H].
  - unfold x8h7_threaded_isr, after_exchange.
    pose proof (x8h7_pkt_send_spec spi fuel d) as H.
    destruct (x8h7_pkt_send spi fuel d) as [[r d'] |]; [apply H | exact H].
  - cbv zeta. unfold x8h7_pkt_send_sync.
    destruct (x8h7_pkt_enq per opc sz dat (x8h7_spidev d)) as [ret s1].
    cbn [fst snd]. destruct (ret <? 0); [reflexivity |].
    pose proof (x8h7_pkt_send_spec spi fuel (with_spidev d s1)) as H.
    unfold after_exchange.
    destruct (x8h7_pkt_send spi fuel (with_spidev d s1)) as [[r d'] |];
      [| exact H].
    destruct (r <? 0); apply H.
Qed.

(** C4 (the code departs from it). The transfer fails with -5 here, yet
    [x8h7_pkt_send_now] and [x8h7_pkt_send_sync] both return 0. *)
Theorem transfer_failure_not_surfaced :
  let spi := spi_reply (-5) [] in
  fst (x8h7_spi_trx spi zero_mem zero_mem FIXED_PACKET_LEN) = -5 /\
  option_map fst (x8h7_pkt_send_now spi 64 driver_init) = Some 0 /\
  option_map fst
    (x8h7_pkt_send_sync spi 1 0x10 2 (Some [0xAA; 0xBB]) 64 driver_init)
  = Some 0.
Proof. vm_compute. repeat split. Qed.

(** C3 (the code departs from it). The received header has size 6 and
    checksum 0, not [6 XOR 0x5555]; the frame is parsed all the same and
    its sub-packet reaches the hook of peripheral 1, or the whole frame
    reaches the diagnostic tap when one is installed. *)
Theorem bad_checksum_frame_dispatched :
  let frame := [6; 0; 0; 0; 1; 7; 2; 0; 0xAA; 0xBB] ++ repeat 0 246 in
  let spi := spi_reply 0 frame in
  let d := snd (x8h7_hook_set 1 0x1000 0x77 driver_init) in
  let tapped := snd (x8h7_dbg_set 0x3000 0x88 d) in
  hdr_size (received spi d) = 6 /\
  hdr_checksum (received spi d) <> Z.lxor (hdr_size (received spi d)) 0x5555 /\
  option_map (fun r => calls (snd r)) (x8h7_pkt_send_now spi 64 d) =
    Some [HookCall 1 0x1000 0x77
            {| peripheral := 1; opcode := 7; size := 2;
               data := [0xAA; 0xBB] |}] /\
  option_map (fun r => calls (snd r)) (x8h7_pkt_send_now spi 64 tapped) =
    Some [DbgCall 0x3000 0x88 frame 6].
Proof. vm_compute. repeat split. discriminate. Qed.

(** ** Round trip: enqueue, then parse *)

Lemma length_payload c :
  valid_call c -> Z.of_nat (length (data (queued c))) = c_size c.
Proof.
  intros (_ & _ & Hs & Hd). unfold queued. cbn [data].
  destruct (c_data c) as [src |]; [apply Hd |].
  rewrite repeat_length. lia.
Qed.

Lemma length_encode c :
  valid_call c -> Z.of_nat (length (encode c)) = encoded_size c.
Proof.
  intros Hv. unfold encode, encoded_size, sizeof_subpkt.
  rewrite length_app. cbn [length].
  pose proof (length_payload c Hv). lia.
Qed.

Lemma length_encode_all cs :
  Forall valid_call cs -> Z.of_nat (length (encode_all cs)) = total_size cs.
Proof.
  induction 1 as [| c cs Hc _ IH]; [reflexivity |].
  cbn [encode_all total_size]. rewrite length_app.
  pose proof (length_encode c Hc). lia.
Qed.

Lemma total_size_nonneg cs : Forall valid_call cs -> 0 <= total_size cs.
Proof. intros H. rewrite <- length_encode_all by assumption. lia. Qed.

Lemma holds_app m p l1 l2 :
  holds m p (l1 ++ l2) <->
  holds m p l1 /\ holds m (p + Z.of_nat (length l1)) l2.
Proof.
  unfold holds. split.
  - intros H. split; intros k Hk.
    + rewrite H by (rewrite length_app; lia).
      apply app_nth1. lia.
    + replace (p + Z.of_nat (length l1) + k) with (p + (Z.of_nat (length l1) + k)) by lia.
      rewrite H by (rewrite length_app; lia).
      rewrite app_nth2 by lia. f_equal. lia.
  - intros [H1 H2] k Hk. rewrite length_app in Hk.
    destruct (Z.lt_ge_cases k (Z.of_nat (length l1))) as [Hlt | Hge].
    + rewrite H1 by lia. symmetry. apply app_nth1. lia.
    + replace (p + k) with (p + Z.of_nat (length l1) + (k - Z.of_nat (length l1))) by lia.
      rewrite H2 by lia. rewrite app_nth2 by lia. f_equal. lia.
Qed.

Lemma nth_byte l k :
  Forall (fun b => 0 <= b < 256) l -> 0 <= nth k l 0 < 256.
Proof.
  intros H. revert k. induction H as [| b l Hb _ IH]; intros [| k]; cbn; try lia.
  apply IH.
Qed.

Lemma enq_holds c s :
  valid_call c ->
  hdr_size (x8h7_txb s) + encoded_size c < X8H7_BUF_SIZE ->
  exists s',
    enq c s = (0, s') /\
    x8h7_rxb s' = x8h7_rxb s /\
    hdr_size (x8h7_txb s') = hdr_size (x8h7_txb s) + encoded_size c /\
    holds (x8h7_txb s') (sizeof_pkthdr + hdr_size (x8h7_txb s)) (encode c) /\
    (forall q, 4 <= q ->
       q < sizeof_pkthdr + hdr_size (x8h7_txb s) \/
       sizeof_pkthdr + hdr_size (x8h7_txb s) + encoded_size c <= q ->
       load8 (x8h7_txb s') q = load8 (x8h7_txb s) q).
Proof.
  intros Hv Hg. pose proof Hv as (Hp & Ho & Hs & Hd).
  unfold encoded_size in *.
  destruct (enq_accept (c_peripheral c) (c_opcode c) (c_size c) (c_data c) s)
    as (txb' & E & Hsz & _ & Hb).
  { rewrite u16_small by assumption. lia. }
  rewrite u16_small in Hsz, Hb by assumption.
  pose proof (load16_range (x8h7_txb s) 0) as HT. fold (hdr_size (x8h7_txb s)) in HT.
  eexists. split; [exact E |]. cbn [x8h7_txb x8h7_rxb].
  split; [reflexivity |]. split; [lia |]. split.
  - intros k Hk. rewrite length_encode in Hk by assumption.
    unfold encoded_size, sizeof_subpkt, sizeof_pkthdr in *.
    rewrite Hb by lia. cbv zeta. unfold encode.
    destruct (Z.eq_dec k 0) as [-> | ?]; [bool_cases; now apply u8_small |].
    destruct (Z.eq_dec k 1) as [-> | ?]; [bool_cases; now apply u8_small |].
    destruct (Z.eq_dec k 2) as [-> | ?]; [bool_cases |].
    destruct (Z.eq_dec k 3) as [-> | ?].
    { bool_cases. apply u8_small. split; [apply Z.div_pos; lia | apply Z.div_lt_upper_bound; lia]. }
    bool_split.
    replace (Z.to_nat k) with (4 + Z.to_nat (k - 4))%nat by lia.
    cbn [app nth Nat.add].
    replace (4 + hdr_size (x8h7_txb s) + k - (4 + hdr_size (x8h7_txb s) + 4)) with (k - 4) by lia.
    unfold queued. cbn [data]. destruct (c_data c) as [src |].
    + apply u8_small, nth_byte, Hd.
    + now rewrite nth_repeat.
  - intros q Hq Hout. unfold sizeof_subpkt, sizeof_pkthdr in *.
    rewrite Hb by assumption. cbv zeta. bool_cases.
Qed.

Lemma routable_valid cs : Forall routable cs -> Forall valid_call cs.
Proof. apply Forall_impl. now intros c [H _]. Qed.

Lemma enq_all_holds cs : forall s,
  Forall valid_call cs ->
  hdr_size (x8h7_txb s) + total_size cs < X8H7_BUF_SIZE ->
  exists s',
    enq_all cs s = (map (fun _ => 0) cs, s') /\
    x8h7_rxb s' = x8h7_rxb s /\
    hdr_size (x8h7_txb s') = hdr_size (x8h7_txb s) + total_size cs /\
    holds (x8h7_txb s') (sizeof_pkthdr + hdr_size (x8h7_txb s)) (encode_all cs) /\
    (forall q, 4 <= q ->
       q < sizeof_pkthdr + hdr_size (x8h7_txb s) \/
       sizeof_pkthdr + hdr_size (x8h7_txb s) + total_size cs <= q ->
       load8 (x8h7_txb s') q = load8 (x8h7_txb s) q).
Proof.
  induction cs as [| c cs IH]; intros s Hv Hg.
  - exists s. cbn [enq_all map total_size encode_all].
    repeat split; try lia. intros k Hk. cbn in Hk. lia.
  - inversion Hv as [| ? ? Hc Hcs]; subst.
    cbn [total_size] in Hg.
    pose proof (total_size_nonneg cs Hcs) as Hnn.
    pose proof (load16_range (x8h7_txb s) 0) as HT. fold (hdr_size (x8h7_txb s)) in HT.
    assert (Hec : 4 <= encoded_size c).
    { destruct Hc as (_ & _ & ? & _). unfold encoded_size, sizeof_subpkt. lia. }
    destruct (enq_holds c s Hc) as (s1 & E1 & R1 & S1 & H1 & O1); [lia |].
    destruct (IH s1 Hcs) as (s2 & E2 & R2 & S2 & H2 & O2); [lia |].
    exists s2. cbn [enq_all map total_size encode_all]. rewrite E1, E2.
    unfold sizeof_pkthdr in *.
    split; [reflexivity |]. split; [congruence |]. split; [lia |]. split.
    + apply holds_app. split.
      * intros k Hk. rewrite length_encode in Hk by assumption.
        rewrite O2 by lia. apply H1. rewrite length_encode by assumption. lia.
      * rewrite length_encode by assumption.
        replace (4 + hdr_size (x8h7_txb s) + encoded_size c)
          with (4 + hdr_size (x8h7_txb s1)) by lia.
        exact H2.
    + intros q Hq Hout. rewrite O2 by lia. apply O1; lia.
Qed.

(** Parsing the wire image of routable sub-packets gives them back. *)
Lemma hook_pkt_encoded m ptr c l :
  valid_call c -> c_size c <= X8H7_PKT_SIZE ->
  holds m ptr (encode c ++ l) ->
  pkt_peripheral m ptr = c_peripheral c /\
  pkt_size m ptr = c_size c /\
  hook_pkt m ptr = queued c.
Proof.
  intros Hv Hmax Hh. pose proof Hv as (Hp & Ho & Hs & Hd).
  apply holds_app in Hh as [Hh _].
  pose proof (length_encode c Hv) as Hl.
  pose proof (length_payload c Hv) as Hlp.
  unfold encoded_size, sizeof_subpkt in Hl.
  assert (F0 : load8 m ptr = c_peripheral c).
  { replace ptr with (ptr + 0) at 1 by lia. rewrite Hh by lia. reflexivity. }
  assert (F1 : load8 m (ptr + 1) = c_opcode c).
  { rewrite Hh by lia. reflexivity. }
  assert (F2 : load16 m (ptr + 2) = c_size c).
  { unfold load16. replace (ptr + 2 + 1) with (ptr + 3) by lia.
    rewrite !Hh by lia.
    change (Z.to_nat 2) with 2%nat. change (Z.to_nat 3) with 3%nat.
    unfold encode. cbn [nth app].
    pose proof (Z.div_mod (c_size c) 256). lia. }
  unfold pkt_peripheral, pkt_size. split; [assumption |]. split; [assumption |].
  unfold hook_pkt, pkt_peripheral, pkt_opcode, pkt_size. rewrite F0, F1, F2.
  destruct (Z.gtb_spec (c_size c) X8H7_PKT_SIZE) as [? | _]; [lia |].
  assert (Hq : read_bytes m (ptr + sizeof_subpkt) (Z.to_nat (c_size c))
               = data (queued c)).
  { rewrite <- Hlp, Nat2Z.id. apply read_bytes_holds.
    intros k Hk. unfold sizeof_subpkt.
    replace (ptr + 4 + k) with (ptr + (4 + k)) by lia.
    rewrite Hh by lia. unfold encode.
    replace (Z.to_nat (4 + k)) with (4 + Z.to_nat k)%nat by lia.
    reflexivity. }
  rewrite Hq. reflexivity.
Qed.

Lemma total_size_pos c cs :
  Forall valid_call (c :: cs) -> 4 <= total_size (c :: cs).
Proof.
  intros H. inversion H as [| ? ? Hc Hcs]; subst.
  pose proof (total_size_nonneg cs Hcs). destruct Hc as (_ & _ & ? & _).
  cbn [total_size]. unfold encoded_size, sizeof_subpkt. lia.
Qed.

Lemma parse_encoded hook privs m : forall cs fuel ptr,
  cs <> [] ->
  Forall routable cs ->
  Forall (fun c => c_size c <= X8H7_PKT_SIZE) cs ->
  total_size cs < 65536 ->
  holds m ptr (encode_all cs) ->
  (length cs <= fuel)%nat ->
  let r := pkt_parse_loop fuel hook privs m ptr (total_size cs) in
  pr_returned r = true /\
  pr_calls r = delivered hook privs cs /\
  reads_within ptr (ptr + total_size cs) (pr_reads r).
Proof.
  induction cs as [| c cs IH]; intros fuel ptr Hne Hr Hmax Htot Hh Hfuel;
    [congruence |].
  destruct fuel as [| fuel]; [cbn in Hfuel; lia |].
  inversion Hr as [| ? ? Hc Hcs]; subst.
  inversion Hmax as [| ? ? Hm Hms]; subst.
  destruct Hc as (Hv & Hper & Hnz).
  pose proof Hv as (_ & _ & Hsz & _).
  pose proof (routable_valid cs Hcs) as Hvs.
  pose proof (total_size_nonneg cs Hvs) as Hnn.
  cbn [encode_all] in Hh.
  destruct (hook_pkt_encoded m ptr c _ Hv Hm Hh) as (Fp & Fs & Fq).
  cbv zeta. rewrite pkt_parse_loop_step.
  assert (Ht : terminator m ptr = false).
  { destruct (terminator m ptr) eqn:T; [| reflexivity].
    apply terminator_spec in T. lia. }
  rewrite Ht. cbv zeta. rewrite Fs.
  cbn [total_size]. unfold encoded_size.
  replace (sizeof_subpkt + c_size c + total_size cs - (sizeof_subpkt + c_size c))
    with (total_size cs) by lia.
  assert (Hlen : Z.of_nat (length (encode c)) = sizeof_subpkt + c_size c)
    by (apply length_encode; assumption).
  cbn [total_size] in Htot. unfold encoded_size, sizeof_subpkt in *.
  rewrite u16_small by lia.
  assert (Hd : dispatch hook privs m ptr
               = if hook (c_peripheral c) =? 0 then ([], [])
                 else ([HookCall (c_peripheral c) (hook (c_peripheral c))
                          (privs (c_peripheral c)) (queued c)],
                       [(ptr + 1, 1); (ptr + 4, c_size c)])).
  { unfold dispatch, hook_reads, sizeof_subpkt. cbv zeta. rewrite Fp, Fq.
    destruct (Z.ltb_spec (c_peripheral c) X8H7_PERIPH_NUM); [| lia].
    destruct (hook (c_peripheral c) =? 0); reflexivity. }
  assert (Hrs : reads_within ptr (ptr + (4 + c_size c + total_size cs))
                  ([(ptr, 1); (ptr + 2, 2)] ++ snd (dispatch hook privs m ptr))).
  { rewrite Hd. unfold reads_within.
    destruct (hook (c_peripheral c) =? 0); cbn [snd app];
      repeat constructor; cbn [fst snd]; lia. }
  assert (Hcs' : fst (dispatch hook privs m ptr) ++ delivered hook privs cs
                 = delivered hook privs (c :: cs)).
  { rewrite Hd. cbn [delivered flat_map].
    destruct (hook (c_peripheral c) =? 0); reflexivity. }
  cbn [parse_more pr_returned pr_calls pr_reads].
  destruct cs as [| c' cs].
  - cbn [total_size] in *. cbn [Z.gtb Z.compare parse_return pr_returned pr_calls pr_reads].
    rewrite !app_nil_r. rewrite <- Hcs'. cbn [delivered flat_map].
    rewrite app_nil_r. repeat split. exact Hrs.
  - pose proof (total_size_pos c' cs Hvs) as Hpos.
    destruct (Z.gtb_spec (total_size (c' :: cs)) 0); [| lia].
    apply holds_app in Hh as [_ Hh]. rewrite Hlen in Hh.
    destruct (IH fuel (ptr + 4 + c_size c)) as (IHr & IHc & IHs); try assumption.
    + discriminate.
    + lia.
    + replace (ptr + 4 + c_size c) with (ptr + (4 + c_size c)) by lia. exact Hh.
    + cbn [length] in *. lia.
    + split; [exact IHr |]. split; [now rewrite IHc |].
      apply Forall_app. split; [exact Hrs |].
      revert IHs. apply Forall_impl. intros r. lia.
Qed.

Lemma total_size_bounds cs bound :
  Forall valid_call cs -> total_size cs <= bound ->
  Forall (fun c => c_size c <= bound - sizeof_subpkt) cs /\
  4 * Z.of_nat (length cs) <= bound.
Proof.
  intros Hv. revert bound. induction Hv as [| c cs Hc Hcs IH]; intros bound Hb.
  - cbn [total_size length] in *. split; [constructor | lia].
  - cbn [total_size] in Hb. pose proof (total_size_nonneg cs Hcs).
    destruct Hc as (_ & _ & ? & _). unfold encoded_size, sizeof_subpkt in *.
    destruct (IH (bound - 4)) as [IH1 IH2]; [lia |].
    split.
    + constructor; [lia |]. revert IH1. apply Forall_impl. intros a. lia.
    + cbn [length]. lia.
Qed.

(** Round trip inside the buffer. *)
Lemma enq_parse_roundtrip cs s hook privs rxb fuel :
  Forall routable cs ->
  buffer_zero (x8h7_txb s) ->
  total_size cs <= X8H7_BUF_SIZE - sizeof_pkthdr ->
  (forall q, 0 <= q < X8H7_BUF_SIZE ->
             load8 rxb q = load8 (x8h7_txb (snd (enq_all cs s))) q) ->
  (64 <= fuel)%nat ->
  fst (enq_all cs s) = map (fun _ => 0) cs /\
  hdr_size (x8h7_txb (snd (enq_all cs s))) = total_size cs /\
  pr_returned (pkt_parse fuel hook privs rxb) = true /\
  pr_calls (pkt_parse fuel hook privs rxb) = delivered hook privs cs /\
  reads_in_buffer (pr_reads (pkt_parse fuel hook privs rxb)).
Proof.
  intros Hr Hz Htot Hrx Hfuel.
  pose proof (routable_valid cs Hr) as Hv.
  destruct (buffer_zero_hdr _ Hz) as [Hs0 _].
  unfold X8H7_BUF_SIZE, sizeof_pkthdr in *.
  destruct (enq_all_holds cs s Hv) as (s' & E & _ & Hs & Hh & Ho).
  { unfold X8H7_BUF_SIZE. lia. }
  rewrite E in *. cbn [fst snd] in *. rewrite Hs0 in *.
  unfold sizeof_pkthdr in *.
  pose proof (total_size_nonneg cs Hv) as Hnn.
  destruct (total_size_bounds cs 252 Hv Htot) as [Hmax Hlen].
  assert (Hrs : hdr_size rxb = total_size cs).
  { replace (total_size cs) with (hdr_size (x8h7_txb s')) by lia.
    unfold hdr_size. apply load16_ext; apply Hrx; lia. }
  split; [reflexivity |]. split; [lia |].
  unfold pkt_parse. cbv zeta. cbn [parse_more pr_returned pr_calls pr_reads app].
  rewrite Hrs. unfold sizeof_pkthdr. change (0 + 4) with 4.
  destruct cs as [| c cs].
  - destruct fuel as [| fuel]; [lia |].
    rewrite pkt_parse_loop_step.
    assert (Hp0 : pkt_peripheral rxb 4 = 0).
    { unfold pkt_peripheral.
      rewrite Hrx by lia. rewrite Ho by (cbn [total_size]; lia).
      apply Hz. unfold X8H7_BUF_SIZE. lia. }
    assert (Ht : terminator rxb 4 = true)
      by (apply terminator_spec; now left).
    rewrite Ht, Hp0. cbn. repeat split.
    unfold reads_in_buffer, X8H7_BUF_SIZE. repeat constructor; cbn; lia.
  - destruct (parse_encoded hook privs rxb (c :: cs) fuel 4)
      as (Pr & Pc & Ps); try assumption.
    + discriminate.
    + lia.
    + intros k Hk. rewrite length_encode_all in Hk by assumption.
      rewrite Hrx by lia. apply Hh. rewrite length_encode_all by assumption. lia.
    + lia.
    + split; [exact Pr |]. split; [exact Pc |].
      unfold reads_in_buffer, X8H7_BUF_SIZE. constructor; [cbn; lia |].
      revert Ps. apply Forall_impl. intros r. lia.
Qed.

(** ** Where the capacity test and the parser leave the buffer *)

(* what the capacity test does keep: the header size stays below the buffer
   size, four bytes more than the payload area holds *)
Lemma enq_hdr_size_bound per opc sz dat s :
  hdr_size (x8h7_txb s) < X8H7_BUF_SIZE ->
  hdr_size (x8h7_txb (snd (x8h7_pkt_enq per opc sz dat s))) < X8H7_BUF_SIZE.
Proof.
  intros H.
  destruct (Z.ltb_spec (hdr_size (x8h7_txb s) + sizeof_subpkt + u16 sz)
              X8H7_BUF_SIZE) as [Hg | Hg].
  - destruct (enq_accept per opc sz dat s Hg) as (txb' & E & Hs & _).
    rewrite E. cbn [snd x8h7_txb]. lia.
  - now rewrite enq_reject by assumption.
Qed.

(** C6 (the code departs from it). A 251-byte payload is accepted into
    the empty buffer: the call returns 0, the header size becomes 255,
    above 256 - 4, and the last three payload bytes are stored past the end
    of the 256-byte buffer. *)
Theorem enq_accepts_past_buffer_end :
  let r := x8h7_pkt_enq 1 0x10 251 (Some (repeat 0xAA 251)) spidev_init in
  fst r = 0 /\
  hdr_size (x8h7_txb (snd r)) = 255 /\
  X8H7_BUF_SIZE - sizeof_pkthdr < hdr_size (x8h7_txb (snd r)) /\
  read_bytes (x8h7_txb (snd r)) X8H7_BUF_SIZE 4 = [0xAA; 0xAA; 0xAA; 0].
Proof. vm_compute. repeat split. Qed.

(** C1 (the code departs from it). One call with peripheral 1 and a
    250-byte payload is accepted into the empty buffer, yet parsing the
    256 bytes that go on the wire hands the hook a sub-packet of size 248:
    the sequence delivered is not the sequence enqueued. *)
Theorem roundtrip_lost_above_capacity :
  let c := {| c_peripheral := 1; c_opcode := 0x10; c_size := 250;
              c_data := Some (repeat 0xAA 250) |} in
  let r := enq_all [c] spidev_init in
  let frame := read_bytes (x8h7_txb (snd r)) 0 (Z.to_nat FIXED_PACKET_LEN) in
  routable c /\
  fst r = [0] /\
  hdr_size (x8h7_txb (snd r)) = 254 /\
  pr_calls (pkt_parse 64 hooks12 no_hook (mem_of_list frame)) =
    [HookCall 1 0x1000 0
       {| peripheral := 1; opcode := 0x10; size := 248;
          data := repeat 0xAA 248 |}] /\
  pr_calls (pkt_parse 64 hooks12 no_hook (mem_of_list frame)) <>
    delivered hooks12 no_hook [c].
Proof.
  cbv zeta. split; [| split; [| split; [| split]]].
  - unfold routable, valid_call, X8H7_PERIPH_NUM. cbn [c_peripheral c_opcode c_size c_data].
    repeat split; try lia.
    apply Forall_forall. intros b Hb. apply repeat_spec in Hb. lia.
  - vm_compute. reflexivity.
  - vm_compute. reflexivity.
  - vm_compute. reflexivity.
  - vm_compute. discriminate.
Qed.

(** C7 (the code departs from it). The header of this frame is valid
    (size 8, checksum 8 XOR 0x5555) and its only record announces 256
    payload bytes; the loop then looks for the next record at offset 264,
    outside the 256-byte receive buffer. *)
Theorem parse_reads_past_buffer_end :
  let rxb := mem_of_list [8; 0; 0x5D; 0x55; 1; 0; 0; 1] in
  hdr_checksum rxb = Z.lxor (hdr_size rxb) 0x5555 /\
  pr_reads (pkt_parse 64 no_hook no_hook rxb) =
    [(0, 2); (4, 1); (6, 2); (264, 1)] /\
  ~ reads_in_buffer (pr_reads (pkt_parse 64 no_hook no_hook rxb)).
Proof.
  cbv zeta. split; [vm_compute; reflexivity |].
  assert (E : pr_reads (pkt_parse 64 no_hook no_hook
                          (mem_of_list [8; 0; 0x5D; 0x55; 1; 0; 0; 1]))
              = [(0, 2); (4, 1); (6, 2); (264, 1)])
    by (vm_compute; reflexivity).
  split; [exact E |]. rewrite E. unfold reads_in_buffer, X8H7_BUF_SIZE.
  intros H. rewrite Forall_forall in H.
  specialize (H (264, 1)). cbn [fst snd] in H.
  assert (0 <= 264 /\ 264 + 1 <= 256) by (apply H; cbn; tauto). lia.
Qed.


(** * Further properties of the transport *)

(** ** Enqueue *)

(** Round trip, on two sub-packets, the second with a null [data]. *)
Lemma enq_parse_roundtrip_witness :
  let cs := [ {| c_peripheral := 1; c_opcode := 0x10; c_size := 2;
                 c_data := Some [0xAA; 0xBB] |};
              {| c_peripheral := 2; c_opcode := 0x01; c_size := 3;
                 c_data := None |} ] in
  let rxb := x8h7_txb (snd (enq_all cs spidev_init)) in
  fst (enq_all cs spidev_init) = map (fun _ => 0) cs /\
  hdr_size (x8h7_txb (snd (enq_all cs spidev_init))) = total_size cs /\
  pr_returned (pkt_parse 64 hooks12 no_hook rxb) = true /\
  pr_calls (pkt_parse 64 hooks12 no_hook rxb) = delivered hooks12 no_hook cs /\
  reads_in_buffer (pr_reads (pkt_parse 64 hooks12 no_hook rxb)).
Proof.
  intros cs rxb.
  apply (enq_parse_roundtrip cs spidev_init hooks12 no_hook rxb 64).
  - unfold routable, valid_call, X8H7_PERIPH_NUM.
    repeat constructor; cbn; lia.
  - intros q _. reflexivity.
  - vm_compute. discriminate.
  - reflexivity.
  - lia.
Defined.

(** An enqueue call whose record fits the outgoing buffer, that is with
    4 + hdr->size + 4 + size <= 256, is accepted and changes, besides the
    header, only the bytes of its own record: no byte of the records
    already queued and no byte behind the record it adds; the receive
    buffer is left alone. *)
Theorem enq_changes_only_its_record per opc sz dat s q :
  sizeof_pkthdr + hdr_size (x8h7_txb s) + sizeof_subpkt + u16 sz
    <= X8H7_BUF_SIZE ->
  sizeof_pkthdr <= q ->
  q < sizeof_pkthdr + hdr_size (x8h7_txb s) \/
  sizeof_pkthdr + hdr_size (x8h7_txb s) + sizeof_subpkt + u16 sz <= q ->
  fst (x8h7_pkt_enq per opc sz dat s) = 0 /\
  load8 (x8h7_txb (snd (x8h7_pkt_enq per opc sz dat s))) q
    = load8 (x8h7_txb s) q /\
  x8h7_rxb (snd (x8h7_pkt_enq per opc sz dat s)) = x8h7_rxb s.
Proof.
  intros Hfit Hq Hout.
  destruct (enq_accept per opc sz dat s) as (txb' & E & _ & _ & Hb).
  { unfold sizeof_pkthdr, sizeof_subpkt, X8H7_BUF_SIZE in *. lia. }
  rewrite E. cbn [fst snd x8h7_txb x8h7_rxb].
  split; [reflexivity |]. split; [| reflexivity].
  unfold sizeof_pkthdr, sizeof_subpkt in *.
  rewrite Hb by assumption. cbv zeta.
  pose proof (u16_range sz). bool_split; reflexivity.
Qed.

Lemma enq_changes_only_its_record_witness :
  let s := snd (x8h7_pkt_enq 1 0x10 2 (Some [0xAA; 0xBB]) spidev_init) in
  fst (x8h7_pkt_enq 2 0x01 3 None s) = 0 /\
  load8 (x8h7_txb (snd (x8h7_pkt_enq 2 0x01 3 None s))) 9 = load8 (x8h7_txb s) 9 /\
  x8h7_rxb (snd (x8h7_pkt_enq 2 0x01 3 None s)) = x8h7_rxb s.
Proof.
  intros s. apply enq_changes_only_its_record.
  - vm_compute. discriminate.
  - unfold sizeof_pkthdr. lia.
  - left. vm_compute. reflexivity.
Defined.

(** ** Return values *)

(** Whatever the transfer reports, [x8h7_pkt_send_now] returns 0 and the
    interrupt handler [IRQ_HANDLED] when they return, and
    [x8h7_pkt_send_sync] and [x8h7_pkt_send_defer] return 0 or [-ENOMEM]:
    no entry point ever reports a failed transfer. *)
Theorem entry_points_return_codes spi per opc sz dat fuel d :
  let ret (o : option (Z * driver)) := option_map fst o in
  (ret (x8h7_pkt_send_now spi fuel d) = None \/
   ret (x8h7_pkt_send_now spi fuel d) = Some 0) /\
  (ret (x8h7_threaded_isr spi fuel d) = None \/
   ret (x8h7_threaded_isr spi fuel d) = Some IRQ_HANDLED) /\
  (ret (x8h7_pkt_send_sync spi per opc sz dat fuel d) = None \/
   ret (x8h7_pkt_send_sync spi per opc sz dat fuel d) = Some 0 \/
   ret (x8h7_pkt_send_sync spi per opc sz dat fuel d) = Some (- ENOMEM)) /\
  (fst (x8h7_pkt_send_defer per opc sz dat d) = 0 \/
   fst (x8h7_pkt_send_defer per opc sz dat d) = - ENOMEM).
Proof.
  cbv zeta.
  assert (S0 : forall d0 r d', x8h7_pkt_send spi fuel d0 = Some (r, d') -> r = 0).
  { intros d0 r d' E. pose proof (x8h7_pkt_send_spec spi fuel d0) as H.
    rewrite E in H. apply H. }
  assert (E0 : forall s, fst (x8h7_pkt_enq per opc sz dat s) = 0 \/
                         fst (x8h7_pkt_enq per opc sz dat s) = - ENOMEM).
  { intros s. rewrite enq_ret. destruct (_ <? _); [now left | now right]. }
  repeat split.
  - unfold x8h7_pkt_send_now.
    destruct (x8h7_pkt_send spi fuel d) as [[r0 d0] |] eqn:E; [| now left].
    apply S0 in E. subst. now right.
  - unfold x8h7_threaded_isr.
    destruct (x8h7_pkt_send spi fuel d) as [[r0 d0] |]; [now right | now left].
  - unfold x8h7_pkt_send_sync.
    specialize (E0 (x8h7_spidev d)).
    destruct (x8h7_pkt_enq per opc sz dat (x8h7_spidev d)) as [ret s1].
    cbn [fst] in E0.
    destruct (ret <? 0) eqn:Hneg.
    + destruct E0 as [-> | ->]; [discriminate | right; now right].
    + destruct (x8h7_pkt_send spi fuel (with_spidev d s1)) as [[r0 d0] |] eqn:E;
        [| now left].
      apply S0 in E. subst r0. cbn. right. now left.
  - unfold x8h7_pkt_send_defer. specialize (E0 (x8h7_spidev d)).
    destruct (x8h7_pkt_enq per opc sz dat (x8h7_spidev d)) as [ret s1].
    exact E0.
Qed.

Lemma with_spidev_same d : with_spidev d (x8h7_spidev d) = d.
Proof. now destruct d. Qed.

(** When the record does not pass the capacity test, [x8h7_pkt_send_sync]
    returns [-ENOMEM] at once: no transfer takes place, nothing is
    dispatched, and what was queued stays queued. *)
Theorem send_sync_refused spi per opc sz dat fuel d :
  X8H7_BUF_SIZE <= hdr_size (x8h7_txb (x8h7_spidev d)) + sizeof_subpkt + u16 sz ->
  x8h7_pkt_send_sync spi per opc sz dat fuel d = Some (- ENOMEM, d) /\
  x8h7_pkt_send_defer per opc sz dat d = (- ENOMEM, d).
Proof.
  intros Hfull. unfold x8h7_pkt_send_sync, x8h7_pkt_send_defer.
  rewrite enq_reject by assumption. cbn. now rewrite with_spidev_same.
Qed.

Lemma send_sync_refused_witness :
  let d := snd (x8h7_pkt_send_defer 1 0x10 248 None driver_init) in
  x8h7_pkt_send_sync (spi_reply 0 []) 2 0x01 0 None 0 d = Some (- ENOMEM, d) /\
  x8h7_pkt_send_defer 2 0x01 0 None d = (- ENOMEM, d).
Proof.
  intros d. apply send_sync_refused. vm_compute. discriminate.
Defined.

(** ** What an exchange dispatches *)

Lemma x8h7_pkt_send_calls spi fuel d :
  x8h7_pkt_send spi fuel d =
  let rxb := received spi d in
  let done cs :=
    Some (0,
          {| x8h7_spidev :=
               {| x8h7_txb := memset (x8h7_txb (x8h7_spidev d)) 0 0 X8H7_BUF_SIZE;
                  x8h7_txl := 0;
                  x8h7_rxb := memset rxb 0 0 X8H7_BUF_SIZE |};
             x8h7_hook := x8h7_hook d; x8h7_hook_priv := x8h7_hook_priv d;
             x8h7_dbg := x8h7_dbg d; x8h7_dbg_priv := x8h7_dbg_priv d;
             calls := calls d ++ cs |}) in
  if hdr_size rxb =? 0 then done []
  else if x8h7_dbg d =? 0 then
    if pr_returned (pkt_parse fuel (x8h7_hook d) (x8h7_hook_priv d) rxb)
    then done (pr_calls (pkt_parse fuel (x8h7_hook d) (x8h7_hook_priv d) rxb))
    else None
  else done [DbgCall (x8h7_dbg d) (x8h7_dbg_priv d)
               (read_bytes rxb 0 (Z.to_nat X8H7_BUF_SIZE)) (hdr_size rxb)].
Proof.
  unfold x8h7_pkt_send, received.
  destruct (x8h7_spi_trx spi _ _ FIXED_PACKET_LEN) as [ret rxb]. cbn [snd].
  cbv zeta.
  destruct (hdr_size rxb =? 0); cbn [negb]; [reflexivity |].
  destruct (x8h7_dbg d =? 0); cbn [negb]; [| reflexivity].
  destruct (pr_returned _); reflexivity.
Qed.

(** With a diagnostic tap installed, a received frame whose header size is
    not 0 goes to the tap, whole and once, and to no hook, whatever hooks
    are registered; the exchange returns without entering the dispatch
    loop. *)
Theorem tap_takes_whole_frame spi fuel d :
  x8h7_dbg d <> 0 ->
  hdr_size (received spi d) <> 0 ->
  exists d',
    x8h7_pkt_send_now spi fuel d = Some (0, d') /\
    calls d' = calls d ++
      [DbgCall (x8h7_dbg d) (x8h7_dbg_priv d)
         (read_bytes (received spi d) 0 (Z.to_nat X8H7_BUF_SIZE))
         (hdr_size (received spi d))].
Proof.
  intros Hd Hs. unfold x8h7_pkt_send_now. rewrite x8h7_pkt_send_calls.
  cbv zeta. apply Z.eqb_neq in Hd, Hs. rewrite Hd, Hs.
  eexists. split; reflexivity.
Qed.

Lemma tap_takes_whole_frame_witness :
  let frame := [6; 0; 0x53; 0x55; 1; 7; 2; 0; 0xAA; 0xBB] in
  let spi := spi_reply 0 frame in
  let d := snd (x8h7_dbg_set 0x3000 0x88
                  (snd (x8h7_hook_set 1 0x1000 0x77 driver_init))) in
  exists d',
    x8h7_pkt_send_now spi 0 d = Some (0, d') /\
    calls d' = calls d ++
      [DbgCall (x8h7_dbg d) (x8h7_dbg_priv d)
         (read_bytes (received spi d) 0 (Z.to_nat X8H7_BUF_SIZE))
         (hdr_size (received spi d))].
Proof.
  intros frame spi d. apply tap_takes_whole_frame.
  - vm_compute. discriminate.
  - vm_compute. discriminate.
Defined.

(** A received frame whose header size is 0 is not looked at any further:
    no hook and no tap is called, even if the rest of the frame holds
    records, and the exchange returns. *)
Theorem empty_header_dispatches_nothing spi fuel d :
  hdr_size (received spi d) = 0 ->
  exists d',
    x8h7_pkt_send_now spi fuel d = Some (0, d') /\ calls d' = calls d.
Proof.
  intros Hs. unfold x8h7_pkt_send_now. rewrite x8h7_pkt_send_calls.
  cbv zeta. apply Z.eqb_eq in Hs. rewrite Hs.
  eexists. split; [reflexivity |]. cbn. apply app_nil_r.
Qed.

Lemma empty_header_dispatches_nothing_witness :
  let frame := [0; 0; 0; 0; 1; 7; 2; 0; 0xAA; 0xBB] in
  let spi := spi_reply 0 frame in
  let d := snd (x8h7_hook_set 1 0x1000 0x77 driver_init) in
  exists d',
    x8h7_pkt_send_now spi 0 d = Some (0, d') /\ calls d' = calls d.
Proof.
  intros frame spi d. apply empty_header_dispatches_nothing.
  vm_compute. reflexivity.
Defined.

Lemma dispatch_call_exact hook privs rxb pkt c :
  In c (fst (dispatch hook privs rxb pkt)) ->
  c = HookCall (pkt_peripheral rxb pkt) (hook (pkt_peripheral rxb pkt))
        (privs (pkt_peripheral rxb pkt)) (hook_pkt rxb pkt) /\
  pkt_peripheral rxb pkt < X8H7_PERIPH_NUM /\
  hook (pkt_peripheral rxb pkt) <> 0.
Proof.
  unfold dispatch. cbv zeta.
  destruct (pkt_peripheral rxb pkt <? X8H7_PERIPH_NUM) eqn:Hi; [| intros []].
  destruct (hook (pkt_peripheral rxb pkt) =? 0) eqn:Hh; [intros [] |].
  cbn [andb negb fst In]. intros [<- | []].
  apply Z.ltb_lt in Hi. apply Z.eqb_neq in Hh. now repeat split.
Qed.

(** Every call [pkt_parse] makes goes to the hook registered for the
    peripheral id of the record, with the context registered beside it: the
    id lies in [1, 16), the hook is not null, and the copy handed over has
    that id, at most [X8H7_PKT_SIZE] bytes and as many bytes as its size
    says. Nothing is ever handed to the tap by [pkt_parse]. *)
Theorem pkt_parse_routes_by_peripheral fuel hook privs rxb c :
  In c (pr_calls (pkt_parse fuel hook privs rxb)) ->
  exists p,
    c = HookCall (peripheral p) (hook (peripheral p)) (privs (peripheral p)) p /\
    1 <= peripheral p < X8H7_PERIPH_NUM /\
    hook (peripheral p) <> 0 /\
    0 <= opcode p < 256 /\
    0 < size p <= X8H7_PKT_SIZE /\
    Z.of_nat (length (data p)) = size p.
Proof.
  rewrite pkt_parse_calls, pkt_parse_loop_calls. intros H.
  apply in_flat_map in H as (pkt & Hb & Hc).
  apply before_In in Hb as [Ht _].
  apply dispatch_call_exact in Hc as (-> & Hi & Hh).
  exists (hook_pkt rxb pkt).
  assert (Hper : peripheral (hook_pkt rxb pkt) = pkt_peripheral rxb pkt)
    by reflexivity.
  rewrite Hper.
  assert (Hnt : ~ (pkt_peripheral rxb pkt = 0 \/
                   pkt_peripheral rxb pkt < X8H7_PERIPH_NUM /\ pkt_size rxb pkt = 0)).
  { intros T. apply terminator_spec in T. congruence. }
  pose proof (load8_range rxb pkt) as R0.
  pose proof (load8_range rxb (pkt + 1)) as R1.
  pose proof (load16_range rxb (pkt + 2)) as R2.
  unfold hook_pkt. cbn [opcode size data]. rewrite length_read_bytes.
  unfold pkt_peripheral, pkt_opcode, pkt_size, X8H7_PKT_SIZE, X8H7_BUF_SIZE in *.
  destruct (Z.gtb_spec (load16 rxb (pkt + 2)) (256 - 8));
    repeat split; try assumption; try lia.
Qed.

Lemma pkt_parse_routes_by_peripheral_witness :
  let rxb := mem_of_list [6; 0; 0x53; 0x55; 1; 7; 2; 0; 0xAA; 0xBB] in
  let c := HookCall 1 0x1000 0
             {| peripheral := 1; opcode := 7; size := 2; data := [0xAA; 0xBB] |} in
  exists p,
    c = HookCall (peripheral p) (hooks12 (peripheral p)) (no_hook (peripheral p)) p /\
    1 <= peripheral p < X8H7_PERIPH_NUM /\
    hooks12 (peripheral p) <> 0 /\
    0 <= opcode p < 256 /\
    0 < size p <= X8H7_PKT_SIZE /\
    Z.of_nat (length (data p)) = size p.
Proof.
  intros rxb c.
  apply (pkt_parse_routes_by_peripheral 64 hooks12 no_hook rxb c).
  vm_compute. left. reflexivity.
Defined.

(** ** Registration is per peripheral *)

Lemma filter_all {A} (f : A -> bool) l :
  (forall x, In x l -> f x = true) -> filter f l = l.
Proof.
  induction l as [| a l IH]; intros H; [reflexivity |].
  cbn [filter]. rewrite (H a) by now left.
  f_equal. apply IH. intros x Hx. apply H. now right.
Qed.

(* two hook tables that differ at [idx] only: the loop returns alike and
   makes the same calls for the other peripherals *)
Lemma pkt_parse_loop_tables fuel hook hook' privs privs' rxb idx :
  (forall j, j <> idx -> hook' j = hook j /\ privs' j = privs j) ->
  forall ptr n,
    pr_returned (pkt_parse_loop fuel hook' privs' rxb ptr n)
      = pr_returned (pkt_parse_loop fuel hook privs rxb ptr n) /\
    filter (not_for idx) (pr_calls (pkt_parse_loop fuel hook' privs' rxb ptr n))
      = filter (not_for idx) (pr_calls (pkt_parse_loop fuel hook privs rxb ptr n)).
Proof.
  intros Hag. induction fuel as [| fuel IH]; intros ptr n; [now split |].
  rewrite !pkt_parse_loop_step.
  destruct (terminator rxb ptr); [now split |].
  cbv zeta. cbn [parse_more pr_returned pr_calls].
  set (n' := u16 (n - (sizeof_subpkt + pkt_size rxb ptr))).
  set (ptr' := ptr + sizeof_subpkt + pkt_size rxb ptr).
  assert (Hd : filter (not_for idx) (fst (dispatch hook' privs' rxb ptr))
               = filter (not_for idx) (fst (dispatch hook privs rxb ptr))).
  { unfold dispatch. cbv zeta.
    destruct (pkt_peripheral rxb ptr <? X8H7_PERIPH_NUM); [| reflexivity].
    cbn [andb].
    destruct (Z.eq_dec (pkt_peripheral rxb ptr) idx) as [E | N].
    - destruct (negb (hook' _ =? 0)), (negb (hook _ =? 0));
        cbn [fst filter not_for call_idx]; rewrite ?E, ?Z.eqb_refl; reflexivity.
    - destruct (Hag _ N) as [-> ->]. reflexivity. }
  rewrite !filter_app, Hd.
  destruct (n' >? 0).
  - destruct (IH ptr' n') as [-> ->]. now split.
  - now split.
Qed.

(** [x8h7_hook_set] for one index changes what is dispatched for that
    peripheral only: the calls made for all other peripherals, and whether
    the loop returns, are as before. Setting a null hook unregisters: no
    call is made for that index any more. *)
Theorem hook_set_affects_one_peripheral idx hook priv d fuel rxb :
  0 <= idx < 256 ->
  let d' := snd (x8h7_hook_set idx hook priv d) in
  let before_set := pkt_parse fuel (x8h7_hook d) (x8h7_hook_priv d) rxb in
  let after_set := pkt_parse fuel (x8h7_hook d') (x8h7_hook_priv d') rxb in
  pr_returned after_set = pr_returned before_set /\
  filter (not_for idx) (pr_calls after_set)
    = filter (not_for idx) (pr_calls before_set) /\
  (hook = 0 ->
   pr_calls after_set = filter (not_for idx) (pr_calls before_set)).
Proof.
  intros Hidx. cbv zeta.
  assert (Hag : forall j, j <> idx ->
            x8h7_hook (snd (x8h7_hook_set idx hook priv d)) j = x8h7_hook d j /\
            x8h7_hook_priv (snd (x8h7_hook_set idx hook priv d)) j
              = x8h7_hook_priv d j).
  { intros j Hj. unfold x8h7_hook_set. rewrite u8_small by assumption.
    destruct (idx >=? X8H7_PERIPH_NUM); [now split |].
    cbn. apply Z.eqb_neq in Hj. now rewrite Hj. }
  unfold pkt_parse. cbv zeta. cbn [parse_more pr_returned pr_calls app].
  destruct (pkt_parse_loop_tables fuel _ _ _ _ rxb idx Hag
              (0 + sizeof_pkthdr) (hdr_size rxb)) as [Hr Hc].
  split; [exact Hr |]. split; [exact Hc |].
  intros ->. rewrite <- Hc. symmetry. apply filter_all.
  intros c Hin. apply pkt_parse_loop_hook_calls in Hin
    as (i & p & -> & Hi & Hh & _).
  cbn [not_for call_idx].
  destruct (Z.eqb_spec i idx) as [-> | ?]; [| reflexivity].
  exfalso. apply Hh. unfold x8h7_hook_set, X8H7_PERIPH_NUM in *.
  rewrite u8_small by assumption.
  destruct (idx >=? 16) eqn:G; [rewrite Z.geb_leb in G; apply Z.leb_le in G; lia |].
  cbn. now rewrite Z.eqb_refl.
Qed.

Lemma hook_set_affects_one_peripheral_witness :
  let rxb := mem_of_list [12; 0; 0x59; 0x55; 1; 7; 2; 0; 0xAA; 0xBB;
                          2; 9; 2; 0; 0xCC; 0xDD] in
  let d := snd (x8h7_hook_set 2 0x2000 0
                  (snd (x8h7_hook_set 1 0x1000 0 driver_init))) in
  let d' := snd (x8h7_hook_set 1 0 0 d) in
  let before_set := pkt_parse 64 (x8h7_hook d) (x8h7_hook_priv d) rxb in
  let after_set := pkt_parse 64 (x8h7_hook d') (x8h7_hook_priv d') rxb in
  pr_returned after_set = pr_returned before_set /\
  filter (not_for 1) (pr_calls after_set)
    = filter (not_for 1) (pr_calls before_set) /\
  (0 = 0 ->
   pr_calls after_set = filter (not_for 1) (pr_calls before_set)).
Proof.
  intros rxb d.
  apply (hook_set_affects_one_peripheral 1 0 0 d 64 rxb). lia.
Defined.

(** ** The dispatch loop ends inside the buffer or reads outside it *)

Lemma pkt_parse_loop_pending_reads hook privs rxb : forall fuel ptr n,
  pr_returned (pkt_parse_loop (S fuel) hook privs rxb ptr n) = false ->
  exists o,
    In (o, 1) (pr_reads (pkt_parse_loop (S fuel) hook privs rxb ptr n)) /\
    ptr + 4 * Z.of_nat fuel <= o.
Proof.
  induction fuel as [| fuel IH]; intros ptr n.
  - rewrite pkt_parse_loop_step.
    destruct (terminator rxb ptr); [discriminate |].
    intros _. exists ptr. split; [now left | lia].
  - rewrite pkt_parse_loop_step.
    destruct (terminator rxb ptr); [discriminate |].
    cbv zeta. cbn [parse_more pr_returned pr_reads].
    destruct (_ >? 0); [| discriminate].
    intros Hr. destruct (IH _ _ Hr) as (o & Hin & Ho).
    exists o. split.
    + apply in_or_app. right. exact Hin.
    + pose proof (load16_range rxb (ptr + 2)). unfold pkt_size, sizeof_subpkt in Ho.
      lia.
Qed.

Lemma pkt_parse_loop_fuel hook privs rxb : forall fuel fuel' ptr n,
  pr_returned (pkt_parse_loop fuel hook privs rxb ptr n) = true ->
  (fuel <= fuel')%nat ->
  pkt_parse_loop fuel' hook privs rxb ptr n
    = pkt_parse_loop fuel hook privs rxb ptr n.
Proof.
  induction fuel as [| fuel IH]; intros fuel' ptr n Hr Hle; [discriminate |].
  destruct fuel' as [| fuel']; [lia |].
  rewrite pkt_parse_loop_step in Hr. rewrite !pkt_parse_loop_step.
  destruct (terminator rxb ptr); [reflexivity |].
  cbv zeta in *. cbn [parse_more pr_returned] in Hr.
  destruct (_ >? 0); [| reflexivity].
  rewrite (IH fuel') by (assumption || lia). reflexivity.
Qed.

(** The loop of [pkt_parse] moves on by at least four bytes per record, so
    on a 256-byte buffer it has returned after at most 64 iterations unless
    it has read outside the buffer; once it has returned, a larger bound on
    the iterations changes nothing. *)
Theorem pkt_parse_returns_or_overreads fuel hook privs rxb :
  (64 <= fuel)%nat ->
  reads_in_buffer (pr_reads (pkt_parse fuel hook privs rxb)) ->
  pr_returned (pkt_parse fuel hook privs rxb) = true /\
  forall fuel', (fuel <= fuel')%nat ->
                pkt_parse fuel' hook privs rxb = pkt_parse fuel hook privs rxb.
Proof.
  intros Hf Hin.
  assert (Hr : pr_returned (pkt_parse fuel hook privs rxb) = true).
  { destruct (pr_returned (pkt_parse fuel hook privs rxb)) eqn:R; [reflexivity |].
    exfalso. destruct fuel as [| fuel]; [lia |].
    unfold pkt_parse in R, Hin. cbv zeta in R, Hin.
    cbn [parse_more pr_returned pr_reads app] in R, Hin.
    destruct (pkt_parse_loop_pending_reads _ _ _ _ _ _ R) as (o & Ho & Hge).
    unfold reads_in_buffer in Hin. rewrite Forall_forall in Hin.
    specialize (Hin (o, 1) (or_intror Ho)). cbn [fst snd] in Hin.
    unfold sizeof_pkthdr, X8H7_BUF_SIZE in *. lia. }
  split; [exact Hr |].
  intros fuel' Hle. unfold pkt_parse in *. cbv zeta in *.
  cbn [parse_more pr_returned] in Hr.
  now rewrite (pkt_parse_loop_fuel _ _ _ fuel fuel').
Qed.

Lemma pkt_parse_returns_or_overreads_witness :
  let rxb := mem_of_list [6; 0; 0x53; 0x55; 1; 7; 2; 0; 0xAA; 0xBB] in
  pr_returned (pkt_parse 64 hooks12 no_hook rxb) = true /\
  forall fuel', (64 <= fuel')%nat ->
                pkt_parse fuel' hooks12 no_hook rxb = pkt_parse 64 hooks12 no_hook rxb.
Proof.
  intros rxb. apply pkt_parse_returns_or_overreads; [lia |].
  vm_compute. repeat constructor; discriminate.
Defined.

(** ** The buffers between entry points *)

Lemma hdr_err_zero m : hdr_size m = 0 -> hdr_err m = false.
Proof. intros H. unfold hdr_err. now rewrite H. Qed.

Lemma hdr_err_checksum m :
  hdr_checksum m = Z.lxor (hdr_size m) 0x5555 -> hdr_err m = false.
Proof.
  intros H. unfold hdr_err. rewrite H, Z.eqb_refl. cbn. apply andb_false_r.
Qed.

Lemma idle_invariant_init : idle_invariant driver_init.
Proof.
  unfold idle_invariant, X8H7_BUF_SIZE, sizeof_pkthdr. cbn.
  repeat split; try reflexivity. discriminate.
Qed.

Lemma idle_invariant_reset d : buffers_reset d -> idle_invariant d.
Proof.
  intros (Ht & Hr & Hs & Hc & Hl). unfold idle_invariant. cbv zeta.
  rewrite Hs, Hl. unfold X8H7_BUF_SIZE, sizeof_pkthdr in *.
  repeat split; try lia; try assumption.
  - now apply hdr_err_zero.
  - intros q Hq. apply Ht. unfold X8H7_BUF_SIZE. lia.
Qed.

Lemma idle_invariant_enq per opc sz dat d :
  idle_invariant d ->
  enq_overruns sz (x8h7_spidev d) = false ->
  idle_invariant (with_spidev d (snd (x8h7_pkt_enq per opc sz dat (x8h7_spidev d)))).
Proof.
  intros (Hlt & He & Hl & Hz & Hr) Hfit.
  destruct (Z.ltb_spec (hdr_size (x8h7_txb (x8h7_spidev d)) + sizeof_subpkt + u16 sz)
              X8H7_BUF_SIZE) as [Hg | Hg].
  - destruct (enq_accept per opc sz dat _ Hg) as (txb' & E & Hs & Hc & Hb).
    rewrite E. unfold idle_invariant, with_spidev.
    cbn [snd x8h7_spidev x8h7_txb x8h7_txl x8h7_rxb].
    pose proof (u16_range sz).
    pose proof (load16_range (x8h7_txb (x8h7_spidev d)) 0) as HT.
    fold (hdr_size (x8h7_txb (x8h7_spidev d))) in HT.
    unfold enq_overruns in Hfit. cbv zeta in Hfit.
    apply andb_false_iff in Hfit as [Hfit | Hfit];
      [apply Z.ltb_ge in Hfit; lia | apply Z.ltb_ge in Hfit].
    unfold sizeof_pkthdr, sizeof_subpkt, X8H7_BUF_SIZE in *.
    split; [lia |]. split; [now apply hdr_err_checksum |].
    split; [reflexivity |]. split; [| exact Hr].
    intros q Hq. rewrite Hb by lia. cbv zeta. bool_split. apply Hz. lia.
  - rewrite enq_reject by assumption. cbn [snd].
    rewrite with_spidev_same. repeat split; assumption.
Qed.

Lemma idle_invariant_step fuel o d d' :
  idle_invariant d -> op_overruns o d = false ->
  step fuel o d = Some d' -> idle_invariant d'.
Proof.
  intros Hi Hfit.
  assert (Hsend : forall spi d0 r d1,
            x8h7_pkt_send spi fuel d0 = Some (r, d1) -> idle_invariant d1).
  { intros spi d0 r d1 E. pose proof (x8h7_pkt_send_spec spi fuel d0) as H.
    rewrite E in H. apply idle_invariant_reset, H. }
  destruct o as [spi per opc sz dat | per opc sz dat | spi | spi
                 | idx hook priv | hook priv]; cbn [step op_overruns] in *.
  - unfold x8h7_pkt_send_sync.
    pose proof (idle_invariant_enq per opc sz dat d Hi Hfit) as He.
    destruct (x8h7_pkt_enq per opc sz dat (x8h7_spidev d)) as [ret s1].
    cbn [snd] in He. destruct (ret <? 0); [now intros [= <-] |].
    destruct (x8h7_pkt_send spi fuel (with_spidev d s1)) as [[r d1] |] eqn:E;
      [| discriminate].
    apply Hsend in E. destruct (r <? 0); now intros [= <-].
  - unfold x8h7_pkt_send_defer.
    pose proof (idle_invariant_enq per opc sz dat d Hi Hfit) as He.
    destruct (x8h7_pkt_enq per opc sz dat (x8h7_spidev d)) as [ret s1].
    now intros [= <-].
  - unfold x8h7_pkt_send_now.
    destruct (x8h7_pkt_send spi fuel d) as [[r d1] |] eqn:E; [| discriminate].
    apply Hsend in E. now intros [= <-].
  - unfold x8h7_threaded_isr.
    destruct (x8h7_pkt_send spi fuel d) as [[r d1] |] eqn:E; [| discriminate].
    apply Hsend in E. now intros [= <-].
  - unfold x8h7_hook_set. intros [= <-].
    destruct (u8 idx >=? X8H7_PERIPH_NUM); exact Hi.
  - intros [= <-]. exact Hi.
Qed.

(** Whatever the peripheral drivers and the interrupt do, in whatever
    order, as long as no accepted record is stored past the end of the
    outgoing buffer: between two entry points header and records fit the
    256 bytes, the outgoing header passes the test of [pkt_dump] (size 0,
    or checksum = size XOR 0x5555), the pending length equals the header
    size, the outgoing buffer is zero behind the queued records, and the
    receive buffer is all zero. *)
Theorem idle_invariant_kept fuel ops d d' :
  idle_invariant d ->
  stores_in_buffer fuel ops d = true ->
  run fuel ops d = Some d' -> idle_invariant d'.
Proof.
  revert d. induction ops as [| o ops IH]; intros d Hi Hfit;
    cbn [run stores_in_buffer] in *.
  - now intros [= <-].
  - apply andb_true_iff in Hfit as [Ho Hrest]. apply negb_true_iff in Ho.
    destruct (step fuel o d) as [d1 |] eqn:E; [| discriminate].
    apply IH; [| exact Hrest]. now apply (idle_invariant_step fuel o d).
Qed.

Lemma idle_invariant_kept_witness :
  let frame := [6; 0; 0x53; 0x55; 1; 7; 2; 0; 0xAA; 0xBB] in
  let ops := [HookSet 1 0x1000 0x77;
              SendDefer 3 0x20 248 None;
              SendSync (spi_reply (-5) []) 2 0x01 0 None;
              Irq (spi_reply 0 frame);
              SendDefer 1 0x10 2 (Some [0xAA; 0xBB])] in
  exists d', run 64 ops driver_init = Some d' /\ idle_invariant d'.
Proof.
  intros frame ops.
  destruct (run 64 ops driver_init) as [d' |] eqn:E.
  - exists d'. split; [reflexivity |].
    refine (idle_invariant_kept 64 ops driver_init d' idle_invariant_init _ E).
    vm_compute. reflexivity.
  - vm_compute in E. discriminate.
Defined.

(** ** The frame on the wire *)

Lemma map_seq_from {A} (f : nat -> A) b : forall a,
  map f (seq a b) = map (fun i => f (a + i)%nat) (seq 0 b).
Proof.
  induction b as [| b IH]; intros a; [reflexivity |].
  cbn [seq map]. rewrite Nat.add_0_r. f_equal.
  rewrite IH, <- seq_shift, map_map. apply map_ext.
  intros i. f_equal. lia.
Qed.

Lemma read_bytes_app m p a b :
  read_bytes m p (a + b) = read_bytes m p a ++ read_bytes m (p + Z.of_nat a) b.
Proof.
  unfold read_bytes. rewrite seq_app, map_app. f_equal.
  cbn [Nat.add]. rewrite map_seq_from. apply map_ext.
  intros i. f_equal. lia.
Qed.

Lemma load16_bytes m p v :
  load16 m p = v -> load8 m p = v mod 256 /\ load8 m (p + 1) = v / 256.
Proof.
  unfold load16. intros <-.
  pose proof (load8_range m p). pose proof (load8_range m (p + 1)).
  split.
  - apply (Z.mod_unique_pos _ 256 (load8 m (p + 1))); lia.
  - apply (Z.div_unique_pos _ 256 _ (load8 m p)); lia.
Qed.

Lemma enq_all_checksum cs : forall s,
  Forall valid_call cs -> cs <> [] ->
  hdr_size (x8h7_txb s) + total_size cs < X8H7_BUF_SIZE ->
  hdr_checksum (x8h7_txb (snd (enq_all cs s)))
  = Z.lxor (hdr_size (x8h7_txb (snd (enq_all cs s)))) 0x5555.
Proof.
  induction cs as [| c cs IH]; intros s Hv Hne Hg; [congruence |].
  inversion Hv as [| ? ? Hc Hcs]; subst.
  cbn [total_size] in Hg. pose proof (total_size_nonneg cs Hcs).
  pose proof Hc as (_ & _ & Hsz & _).
  destruct (enq_accept (c_peripheral c) (c_opcode c) (c_size c) (c_data c) s)
    as (txb' & E & Hs & Hck & _).
  { rewrite u16_small by assumption. unfold encoded_size in Hg. lia. }
  rewrite u16_small in Hs by assumption.
  cbn [enq_all]. unfold enq. rewrite E.
  destruct cs as [| c' cs].
  - cbn [enq_all snd x8h7_txb]. exact Hck.
  - set (s1 := {| x8h7_txb := txb'; x8h7_txl := hdr_size txb';
                  x8h7_rxb := x8h7_rxb s |}).
    specialize (IH s1 Hcs).
    destruct (enq_all (c' :: cs) s1) as [rs s2] eqn:E2. cbn [snd] in *.
    apply IH; [discriminate |].
    subst s1. cbn [x8h7_txb]. unfold encoded_size in Hg. lia.
Qed.

(* the first 256 bytes of the outgoing buffer after enqueuing [cs] into a
   zeroed buffer, within 252 bytes *)
Lemma enq_all_frame_image cs s :
  Forall valid_call cs ->
  buffer_zero (x8h7_txb s) ->
  total_size cs <= X8H7_BUF_SIZE - sizeof_pkthdr ->
  transmitted (snd (enq_all cs s)) = frame_image cs.
Proof.
  intros Hv Hz Htot.
  destruct (buffer_zero_hdr _ Hz) as [Hs0 Hc0].
  pose proof (total_size_nonneg cs Hv) as Hnn.
  unfold X8H7_BUF_SIZE, sizeof_pkthdr in *.
  destruct (enq_all_holds cs s Hv) as (s' & E & _ & Hs & Hh & Ho).
  { unfold X8H7_BUF_SIZE. lia. }
  pose proof (enq_all_checksum cs s Hv) as Hck.
  rewrite E in *. cbn [snd] in *. rewrite Hs0 in *.
  unfold sizeof_pkthdr, X8H7_BUF_SIZE in *.
  unfold transmitted, frame_image, FIXED_PACKET_LEN, X8H7_BUF_SIZE, sizeof_pkthdr.
  set (T := total_size cs) in *.
  replace (Z.to_nat 256)
    with (4 + (length (encode_all cs) + Z.to_nat (256 - 4 - T)))%nat
    by (pose proof (length_encode_all cs Hv); lia).
  rewrite !read_bytes_app. f_equal; [| f_equal].
  - (* header *)
    assert (Hsz : hdr_size (x8h7_txb s') = T) by lia.
    destruct (load16_bytes _ _ _ Hsz) as [B0 B1].
    assert (Hcs : hdr_checksum (x8h7_txb s')
                  = if T =? 0 then 0 else Z.lxor T 0x5555).
    { destruct (Z.eqb_spec T 0) as [HT0 | HT0].
      - destruct cs as [| c cs].
        + cbn [enq_all] in E. injection E as <-. exact Hc0.
        + pose proof (total_size_pos c cs Hv). lia.
      - rewrite Hck, Hsz; [reflexivity | | lia].
        intros ->. apply HT0. reflexivity. }
    destruct (load16_bytes _ _ _ Hcs) as [B2 B3].
    unfold read_bytes. cbn [seq map]. change (0 + Z.of_nat 0) with 0.
    change (0 + Z.of_nat 1) with (0 + 1). change (0 + Z.of_nat 2) with 2.
    change (0 + Z.of_nat 3) with (2 + 1).
    rewrite B0, B1, B2, B3. unfold header_bytes.
    destruct (T =? 0) eqn:HT; [| reflexivity].
    apply Z.eqb_eq in HT. rewrite HT. reflexivity.
  - (* records *)
    apply read_bytes_holds. exact Hh.
  - (* zero fill *)
    rewrite <- (repeat_length 0 (Z.to_nat (256 - 4 - T))) at 1.
    apply read_bytes_holds. intros k Hk. rewrite repeat_length in Hk.
    rewrite nth_repeat.
    pose proof (length_encode_all cs Hv).
    rewrite Ho by lia. apply Hz. unfold X8H7_BUF_SIZE. lia.
Qed.

Lemma defer_all_enq_all cs : forall d,
  defer_all cs d =
  (fst (enq_all cs (x8h7_spidev d)),
   with_spidev d (snd (enq_all cs (x8h7_spidev d)))).
Proof.
  induction cs as [| c cs IH]; intros d; cbn [defer_all enq_all fst snd].
  - now rewrite with_spidev_same.
  - unfold x8h7_pkt_send_defer, enq.
    destruct (x8h7_pkt_enq (c_peripheral c) (c_opcode c) (c_size c) (c_data c)
                (x8h7_spidev d)) as [r s1].
    rewrite IH. cbn [with_spidev x8h7_spidev].
    destruct (enq_all cs s1) as [rs s2]. reflexivity.
Qed.

(* the echo leaves in the receive buffer the bytes of the outgoing one *)
Lemma received_echo d q :
  0 <= q < X8H7_BUF_SIZE ->
  load8 (received spi_echo d) q = load8 (x8h7_txb (x8h7_spidev d)) q.
Proof.
  intros Hq. unfold received, x8h7_spi_trx, spi_echo. cbn [snd].
  rewrite load8_memcpy, length_read_bytes.
  unfold FIXED_PACKET_LEN, X8H7_BUF_SIZE in *.
  change (Z.min 256 (Z.of_nat (Z.to_nat 256))) with 256.
  destruct (Z.leb_spec 0 q); [| lia].
  destruct (Z.ltb_spec q (0 + 256)); [| lia]. cbn [andb].
  rewrite nth_read_bytes by lia.
  unfold load8. rewrite u8_u8. do 2 f_equal. lia.
Qed.

(** Deferred sub-packets leave in one frame, in the order of the calls.
    After the calls [cs] were made through [x8h7_pkt_send_defer] on a
    zeroed outgoing buffer, within 252 bytes, all of them return 0, and the
    bytes that [x8h7_pkt_send] hands to the transfer are the header (size,
    size XOR 0x5555), the records of [cs] one after the other, and zeros:
    for every SPI controller the exchange goes as if the controller had
    been given just these bytes; a controller that shifts back in what it
    is given leaves them in the receive buffer, where an installed tap
    gets them. *)
Theorem deferred_frame_handed_to_transfer cs d spi fuel :
  Forall valid_call cs ->
  buffer_zero (x8h7_txb (x8h7_spidev d)) ->
  total_size cs <= X8H7_BUF_SIZE - sizeof_pkthdr ->
  let d1 := snd (defer_all cs d) in
  fst (defer_all cs d) = map (fun _ => 0) cs /\
  x8h7_pkt_send_now spi fuel d1
    = x8h7_pkt_send_now (fun _ => spi (frame_image cs)) fuel d1 /\
  read_bytes (received spi_echo d1) 0 (Z.to_nat FIXED_PACKET_LEN)
    = frame_image cs /\
  (x8h7_dbg d <> 0 -> cs <> [] ->
   option_map (fun r => calls (snd r)) (x8h7_pkt_send_now spi_echo fuel d1)
   = Some (calls d ++
           [DbgCall (x8h7_dbg d) (x8h7_dbg_priv d)
              (frame_image cs) (total_size cs)])).
Proof.
  intros Hv Hz Htot. cbv zeta.
  rewrite defer_all_enq_all. cbn [fst snd].
  pose proof (enq_all_frame_image cs (x8h7_spidev d) Hv Hz Htot) as Himg.
  unfold transmitted in Himg.
  destruct (buffer_zero_hdr _ Hz) as [Hs0 _].
  destruct (enq_all_holds cs (x8h7_spidev d) Hv) as (s' & E & _ & Hs & _).
  { unfold X8H7_BUF_SIZE, sizeof_pkthdr in *. lia. }
  rewrite E in *. cbn [fst snd] in *.
  set (d1 := with_spidev d s').
  assert (Hecho : read_bytes (received spi_echo d1) 0 (Z.to_nat FIXED_PACKET_LEN)
                  = frame_image cs).
  { rewrite <- Himg. apply read_bytes_ext. intros k Hk.
    apply received_echo. unfold FIXED_PACKET_LEN, X8H7_BUF_SIZE in *. lia. }
  split; [reflexivity |]. split; [| split; [exact Hecho |]].
  - unfold x8h7_pkt_send_now, x8h7_pkt_send, x8h7_spi_trx.
    cbv zeta. cbn [d1 with_spidev x8h7_spidev]. rewrite Himg. reflexivity.
  - intros Hd Hne. unfold x8h7_pkt_send_now. rewrite x8h7_pkt_send_calls.
    cbv zeta.
    assert (Hsz : hdr_size (received spi_echo d1) = total_size cs).
    { replace (total_size cs) with (hdr_size (x8h7_txb s')) by lia.
      unfold hdr_size. apply load16_ext;
        apply (received_echo d1); unfold X8H7_BUF_SIZE; lia. }
    assert (Hpos : 4 <= total_size cs).
    { destruct cs as [| c cs]; [congruence | now apply total_size_pos]. }
    rewrite Hsz.
    destruct (Z.eqb_spec (total_size cs) 0); [lia |].
    change (x8h7_dbg d1) with (x8h7_dbg d).
    destruct (Z.eqb_spec (x8h7_dbg d) 0); [contradiction |].
    cbn [option_map snd calls]. change (calls d1) with (calls d).
    change (x8h7_dbg_priv d1) with (x8h7_dbg_priv d).
    change X8H7_BUF_SIZE with FIXED_PACKET_LEN. now rewrite Hecho.
Qed.

Lemma deferred_frame_handed_to_transfer_witness :
  let cs := [ {| c_peripheral := 1; c_opcode := 0x10; c_size := 2;
                 c_data := Some [0xAA; 0xBB] |};
              {| c_peripheral := 2; c_opcode := 0x01; c_size := 0;
                 c_data := None |} ] in
  let d := snd (x8h7_dbg_set 0x3000 0x88 driver_init) in
  let spi := spi_reply (-5) [] in
  let d1 := snd (defer_all cs d) in
  fst (defer_all cs d) = map (fun _ => 0) cs /\
  x8h7_pkt_send_now spi 64 d1
    = x8h7_pkt_send_now (fun _ => spi (frame_image cs)) 64 d1 /\
  read_bytes (received spi_echo d1) 0 (Z.to_nat FIXED_PACKET_LEN)
    = frame_image cs /\
  (x8h7_dbg d <> 0 -> cs <> [] ->
   option_map (fun r => calls (snd r)) (x8h7_pkt_send_now spi_echo 64 d1)
   = Some (calls d ++
           [DbgCall (x8h7_dbg d) (x8h7_dbg_priv d)
              (frame_image cs) (total_size cs)])).
Proof.
  intros cs d spi.
  apply (deferred_frame_handed_to_transfer cs d spi 64).
  - unfold valid_call. repeat constructor; cbn; lia.
  - intros q _. reflexivity.
  - vm_compute. discriminate.
Defined.

(** ** A sub-packet without payload ends the frame for the parser *)

Lemma total_size_app cs1 cs2 :
  total_size (cs1 ++ cs2) = total_size cs1 + total_size cs2.
Proof.
  induction cs1 as [| c cs1 IH]; cbn [app total_size]; [reflexivity | lia].
Qed.

Lemma encode_all_app cs1 cs2 :
  encode_all (cs1 ++ cs2) = encode_all cs1 ++ encode_all cs2.
Proof.
  induction cs1 as [| c cs1 IH]; cbn [app encode_all]; [reflexivity |].
  now rewrite IH, app_assoc.
Qed.

Lemma parse_encoded_stop hook privs m z l : forall pre fuel ptr rest,
  Forall routable pre ->
  Forall (fun c => c_size c <= X8H7_PKT_SIZE) pre ->
  valid_call z -> c_peripheral z < X8H7_PERIPH_NUM -> c_size z = 0 ->
  0 <= rest -> total_size pre + (sizeof_subpkt + rest) < 65536 ->
  holds m ptr (encode_all pre ++ encode z ++ l) ->
  (length pre < fuel)%nat ->
  let r := pkt_parse_loop fuel hook privs m ptr
             (total_size pre + (sizeof_subpkt + rest)) in
  pr_returned r = true /\ pr_calls r = delivered hook privs pre.
Proof.
  induction pre as [| c pre IH];
    intros fuel ptr rest Hr Hmax Hvz Hpz Hsz Hrest Htot Hh Hfuel;
    (destruct fuel as [| fuel]; [cbn in Hfuel; lia |]); cbv zeta.
  - cbn [encode_all app] in Hh.
    destruct (hook_pkt_encoded m ptr z l Hvz) as (Fp & Fs & _);
      [unfold X8H7_PKT_SIZE, X8H7_BUF_SIZE; lia | exact Hh |].
    rewrite pkt_parse_loop_step.
    assert (Ht : terminator m ptr = true).
    { apply terminator_spec. right. split; [lia | congruence]. }
    rewrite Ht. now split.
  - inversion Hr as [| ? ? Hc Hcs]; subst.
    inversion Hmax as [| ? ? Hm Hms]; subst.
    destruct Hc as (Hv & Hper & Hnz).
    pose proof Hv as (_ & _ & Hszc & _).
    pose proof (total_size_nonneg pre (routable_valid pre Hcs)) as Hnn.
    cbn [encode_all] in Hh. rewrite <- app_assoc in Hh.
    destruct (hook_pkt_encoded m ptr c _ Hv Hm Hh) as (Fp & Fs & Fq).
    rewrite pkt_parse_loop_step.
    assert (Ht : terminator m ptr = false).
    { destruct (terminator m ptr) eqn:T; [| reflexivity].
      apply terminator_spec in T. lia. }
    rewrite Ht. cbv zeta. rewrite Fs.
    cbn [total_size] in *. unfold encoded_size, sizeof_subpkt in *.
    replace (4 + c_size c + total_size pre + (4 + rest) - (4 + c_size c))
      with (total_size pre + (4 + rest)) by lia.
    rewrite u16_small by lia.
    destruct (Z.gtb_spec (total_size pre + (4 + rest)) 0); [| lia].
    assert (Hd : fst (dispatch hook privs m ptr) = delivered hook privs [c]).
    { unfold dispatch, delivered. cbv zeta. cbn [flat_map]. rewrite Fp, Fq.
      destruct (Z.ltb_spec (c_peripheral c) X8H7_PERIPH_NUM); [| lia].
      destruct (hook (c_peripheral c) =? 0); reflexivity. }
    apply holds_app in Hh as [_ Hh].
    rewrite (length_encode c Hv) in Hh. unfold encoded_size, sizeof_subpkt in Hh.
    destruct (IH fuel (ptr + 4 + c_size c) rest) as [IHr IHc]; try assumption.
    + lia.
    + replace (ptr + 4 + c_size c) with (ptr + (4 + c_size c)) by lia. exact Hh.
    + cbn [length] in Hfuel. lia.
    + cbn [parse_more pr_returned pr_calls]. split; [exact IHr |].
      rewrite Hd, IHc. cbn [delivered flat_map]. now rewrite app_nil_r.
Qed.

(** [x8h7_pkt_enq] accepts a sub-packet without payload, but [pkt_parse]
    takes its record for the end of the frame when its peripheral id is
    below 16: of a sequence enqueued into a zeroed buffer, within 252
    bytes, in which routable sub-packets are followed by one of size 0 and
    peripheral id below 16, only the sub-packets before that one are
    delivered when the frame is parsed; that one and all that follow are
    not. *)
Theorem zero_size_subpacket_ends_parsing pre z post s hook privs rxb fuel :
  Forall routable pre ->
  valid_call z -> c_peripheral z < X8H7_PERIPH_NUM -> c_size z = 0 ->
  Forall valid_call post ->
  buffer_zero (x8h7_txb s) ->
  total_size (pre ++ z :: post) <= X8H7_BUF_SIZE - sizeof_pkthdr ->
  (forall q, 0 <= q < X8H7_BUF_SIZE ->
     load8 rxb q = load8 (x8h7_txb (snd (enq_all (pre ++ z :: post) s))) q) ->
  (64 <= fuel)%nat ->
  fst (enq_all (pre ++ z :: post) s) = map (fun _ => 0) (pre ++ z :: post) /\
  pr_returned (pkt_parse fuel hook privs rxb) = true /\
  pr_calls (pkt_parse fuel hook privs rxb) = delivered hook privs pre.
Proof.
  intros Hpre Hvz Hpz Hsz Hpost Hz Htot Hrx Hfuel.
  set (cs := pre ++ z :: post) in *.
  assert (Hv : Forall valid_call cs).
  { apply Forall_app. split; [now apply routable_valid | now constructor]. }
  destruct (buffer_zero_hdr _ Hz) as [Hs0 _].
  unfold X8H7_BUF_SIZE, sizeof_pkthdr in *.
  destruct (enq_all_holds cs s Hv) as (s' & E & _ & Hs & Hh & Ho).
  { unfold X8H7_BUF_SIZE. lia. }
  rewrite E in *. cbn [fst snd] in *. rewrite Hs0 in *.
  unfold sizeof_pkthdr in *.
  pose proof (total_size_nonneg post Hpost) as Hnp.
  pose proof (total_size_nonneg pre (routable_valid pre Hpre)) as Hnpre.
  assert (Htc : total_size cs = total_size pre + (sizeof_subpkt + total_size post)).
  { unfold cs. rewrite total_size_app. cbn [total_size].
    unfold encoded_size. rewrite Hsz. lia. }
  destruct (total_size_bounds cs 252 Hv Htot) as [Hmax Hlen].
  assert (Hrs : hdr_size rxb = total_size cs).
  { replace (total_size cs) with (hdr_size (x8h7_txb s')) by lia.
    unfold hdr_size. apply load16_ext; apply Hrx; unfold sizeof_subpkt in *; lia. }
  split; [reflexivity |].
  unfold pkt_parse. cbv zeta. cbn [parse_more pr_returned pr_calls app].
  rewrite Hrs, Htc. unfold sizeof_pkthdr. change (0 + 4) with 4.
  apply (parse_encoded_stop hook privs rxb z (encode_all post)); try assumption.
  - unfold cs in Hmax. apply Forall_app in Hmax as [Hmax _].
    revert Hmax. apply Forall_impl. intros c. unfold X8H7_PKT_SIZE, X8H7_BUF_SIZE, sizeof_subpkt. lia.
  - unfold sizeof_subpkt in *. lia.
  - intros k Hk.
    assert (Hen : encode_all pre ++ encode z ++ encode_all post = encode_all cs).
    { unfold cs. rewrite encode_all_app. reflexivity. }
    rewrite Hen in *. rewrite length_encode_all in Hk by assumption.
    rewrite Hrx by lia. apply Hh. rewrite length_encode_all by assumption. lia.
  - unfold cs in Hlen. rewrite length_app in Hlen. cbn [length] in Hlen. lia.
Qed.

Lemma zero_size_subpacket_ends_parsing_witness :
  let pre := [ {| c_peripheral := 1; c_opcode := 0x10; c_size := 2;
                  c_data := Some [0xAA; 0xBB] |} ] in
  let z := {| c_peripheral := 2; c_opcode := 0x01; c_size := 0;
              c_data := None |} in
  let post := [ {| c_peripheral := 1; c_opcode := 0x11; c_size := 1;
                   c_data := Some [0xCC] |} ] in
  let rxb := x8h7_txb (snd (enq_all (pre ++ z :: post) spidev_init)) in
  fst (enq_all (pre ++ z :: post) spidev_init)
    = map (fun _ => 0) (pre ++ z :: post) /\
  pr_returned (pkt_parse 64 hooks12 no_hook rxb) = true /\
  pr_calls (pkt_parse 64 hooks12 no_hook rxb) = delivered hooks12 no_hook pre.
Proof.
  intros pre z post rxb.
  apply (zero_size_subpacket_ends_parsing pre z post spidev_init
           hooks12 no_hook rxb 64).
  - unfold routable, valid_call, X8H7_PERIPH_NUM. repeat constructor; cbn; lia.
  - unfold valid_call. cbn. lia.
  - unfold X8H7_PERIPH_NUM. cbn. lia.
  - reflexivity.
  - unfold valid_call. repeat constructor; cbn; lia.
  - intros q _. reflexivity.
  - vm_compute. discriminate.
  - reflexivity.
  - lia.
Defined.

(** * The CAN peripheral driver *)

(** ** Bits *)

Lemma land_pow2 x n :
  0 <= n -> Z.land x (2 ^ n) = if Z.testbit x n then 2 ^ n else 0.
Proof.
  intros Hn. apply Z.bits_inj'. intros k Hk.
  rewrite Z.land_spec, Z.pow2_bits_eqb by assumption.
  destruct (Z.eqb_spec n k) as [<- | Hne].
  - destruct (Z.testbit x n); [now rewrite Z.pow2_bits_true | now rewrite Z.bits_0].
  - rewrite andb_false_r.
    destruct (Z.testbit x n); [now rewrite Z.pow2_bits_false | now rewrite Z.bits_0].
Qed.

Lemma lor_pow2_low n k y :
  0 <= k <= n -> Z.lor (2 ^ n) (y mod 2 ^ k) = 2 ^ n + y mod 2 ^ k.
Proof.
  intros H. rewrite <- Z.add_lor_land.
  replace (Z.land (2 ^ n) (y mod 2 ^ k)) with 0; [lia |].
  symmetry. apply Z.bits_inj'. intros i Hi.
  rewrite Z.land_spec, Z.bits_0, Z.pow2_bits_eqb, Z.testbit_mod_pow2 by lia.
  destruct (Z.eqb_spec n i) as [<- | ?]; [| reflexivity].
  destruct (Z.ltb_spec n k); [lia | reflexivity].
Qed.

Lemma testbit_small x n i : 0 <= x < 2 ^ n -> n <= i -> Z.testbit x i = false.
Proof.
  intros Hx Hi. rewrite <- (Z.mod_small x (2 ^ n)) by assumption.
  apply Z.mod_pow2_bits_high. split; [| assumption].
  destruct (Z.le_gt_cases 0 n); [assumption |].
  rewrite Z.pow_neg_r in Hx by assumption. lia.
Qed.

(* [x & ~ones(n)] on 32 bits is zero exactly for the values of n bits *)
Lemma land_u32_lnot_ones x n :
  0 <= n <= 32 -> 0 <= x < 2 ^ 32 ->
  (Z.land x (u32 (Z.lnot (Z.ones n))) =? 0) = (x <=? Z.ones n).
Proof.
  intros Hn Hx.
  assert (E : Z.land x (u32 (Z.lnot (Z.ones n))) = Z.shiftl (Z.shiftr x n) n).
  { rewrite <- Z.ldiff_ones_r, Z.ldiff_land by lia.
    apply Z.bits_inj'. intros i Hi. rewrite !Z.land_spec. unfold u32.
    change 4294967296 with (2 ^ 32). rewrite Z.testbit_mod_pow2 by lia.
    destruct (Z.ltb_spec i 32); [reflexivity |].
    now rewrite (testbit_small x 32 i). }
  rewrite E, Z.shiftl_mul_pow2, Z.shiftr_div_pow2 by lia.
  assert (Hp : 0 < 2 ^ n) by (apply Z.pow_pos_nonneg; lia).
  rewrite Z.ones_equiv.
  destruct (Z.leb_spec x (Z.pred (2 ^ n))) as [Hle | Hgt].
  - rewrite Z.div_small by lia. reflexivity.
  - apply Z.eqb_neq. assert (1 <= x / 2 ^ n); [| nia].
    apply Z.div_le_lower_bound; lia.
Qed.

(** ** x8h7_can_frame_to_tx_obj *)

Lemma tx_obj_id h frame old :
  msg_id (x8h7_can_frame_to_tx_obj h frame old) =
  if Z.testbit (can_id frame) 31
  then CAN_EFF_FLAG + can_id frame mod 2 ^ 29
  else can_id frame mod 2 ^ 11.
Proof.
  unfold x8h7_can_frame_to_tx_obj. cbn [msg_id].
  change CAN_EFF_FLAG with (2 ^ 31). change CAN_EFF_MASK with (Z.ones 29).
  change CAN_SFF_MASK with (Z.ones 11).
  rewrite land_pow2, !Z.land_ones by lia.
  destruct (Z.testbit (can_id frame) 31); cbn [negb Z.eqb].
  - change (2 ^ 31 =? 0) with false. cbn [negb]. apply lor_pow2_low. lia.
  - reflexivity.
Qed.

(** The identifier of the transmit object keeps the extended-frame flag
    and the identifier bits of [can_id], 29 for an extended frame and 11
    otherwise, and nothing else: the remote-request and error flags are
    never forwarded, so a remote frame leaves as the data frame with the
    same identifier. *)
Theorem tx_obj_drops_rtr_and_err h frame old :
  let obj := x8h7_can_frame_to_tx_obj h frame old in
  Z.land (msg_id obj) (Z.lor CAN_RTR_FLAG CAN_ERR_FLAG) = 0 /\
  Z.land (msg_id obj) CAN_EFF_FLAG = Z.land (can_id frame) CAN_EFF_FLAG /\
  Z.land (msg_id obj) CAN_EFF_MASK =
    Z.land (can_id frame)
      (if Z.land (can_id frame) CAN_EFF_FLAG =? 0
       then CAN_SFF_MASK else CAN_EFF_MASK) /\
  0 <= msg_id obj < 2 ^ 32 /\
  x8h7_can_frame_to_tx_obj h
    (with_can_id frame (Z.lor (can_id frame) CAN_RTR_FLAG)) old = obj /\
  x8h7_can_frame_to_tx_obj h
    (with_can_id frame (Z.lor (can_id frame) CAN_ERR_FLAG)) old = obj.
Proof.
  cbv zeta.
  assert (Hflag : forall flag k, flag = 2 ^ k -> 29 <= k < 31 ->
    x8h7_can_frame_to_tx_obj h (with_can_id frame (Z.lor (can_id frame) flag)) old
    = x8h7_can_frame_to_tx_obj h frame old).
  { intros flag k -> Hk. unfold x8h7_can_frame_to_tx_obj, with_can_id.
    cbn [can_id can_dlc can_data].
    assert (E1 : Z.land (Z.lor (can_id frame) (2 ^ k)) CAN_EFF_FLAG
                 = Z.land (can_id frame) CAN_EFF_FLAG).
    { apply Z.bits_inj'. intros i Hi. change CAN_EFF_FLAG with (2 ^ 31).
      rewrite !Z.land_spec, Z.lor_spec, !Z.pow2_bits_eqb by lia.
      destruct (Z.eqb_spec 31 i); [| now rewrite !andb_false_r].
      destruct (Z.eqb_spec k i); [lia | now rewrite orb_false_r]. }
    assert (E2 : forall n, 0 <= n <= 29 ->
                 Z.land (Z.lor (can_id frame) (2 ^ k)) (Z.ones n)
                 = Z.land (can_id frame) (Z.ones n)).
    { intros n Hn. apply Z.bits_inj'. intros i Hi.
      rewrite !Z.land_spec, Z.lor_spec, Z.pow2_bits_eqb by lia.
      destruct (Z.ltb_spec i n).
      - destruct (Z.eqb_spec k i); [lia | now rewrite orb_false_r].
      - rewrite Z.ones_spec_high by lia. now rewrite !andb_false_r. }
    change CAN_EFF_MASK with (Z.ones 29). change CAN_SFF_MASK with (Z.ones 11).
    rewrite E1, !E2 by lia. reflexivity. }
  pose proof (tx_obj_id h frame old) as Hid.
  assert (Hr29 : 0 <= can_id frame mod 2 ^ 29 < 2 ^ 29)
    by (apply Z.mod_pos_bound; lia).
  assert (Hr11 : 0 <= can_id frame mod 2 ^ 11 < 2 ^ 11)
    by (apply Z.mod_pos_bound; lia).
  assert (Hb : forall i, 0 <= i ->
            Z.testbit (msg_id (x8h7_can_frame_to_tx_obj h frame old)) i =
            if Z.testbit (can_id frame) 31
            then (i =? 31) || ((i <? 29) && Z.testbit (can_id frame) i)
            else (i <? 11) && Z.testbit (can_id frame) i).
  { intros i Hi. rewrite Hid. destruct (Z.testbit (can_id frame) 31).
    - change CAN_EFF_FLAG with (2 ^ 31).
      rewrite <- lor_pow2_low by lia.
      rewrite Z.lor_spec, Z.pow2_bits_eqb, Z.testbit_mod_pow2 by lia.
      now rewrite (Z.eqb_sym 31 i).
    - now rewrite Z.testbit_mod_pow2 by lia. }
  split; [| split; [| split; [| split; [| split]]]].
  - apply Z.bits_inj'. intros i Hi.
    rewrite Z.land_spec, Z.bits_0, Hb by assumption.
    change (Z.lor CAN_RTR_FLAG CAN_ERR_FLAG) with (Z.shiftl (Z.ones 2) 29).
    rewrite Z.shiftl_spec by assumption.
    destruct (Z.ltb_spec i 29).
    + rewrite (Z.testbit_neg_r _ (i - 29)) by lia. apply andb_false_r.
    + destruct (Z.ltb_spec (i - 29) 2).
      * destruct (Z.testbit (can_id frame) 31);
          destruct (Z.eqb_spec i 31), (Z.ltb_spec i 11); try lia; reflexivity.
      * rewrite Z.ones_spec_high by lia. apply andb_false_r.
  - change CAN_EFF_FLAG with (2 ^ 31). rewrite !land_pow2 by lia.
    rewrite Hb by lia. destruct (Z.testbit (can_id frame) 31); reflexivity.
  - change CAN_EFF_FLAG with (2 ^ 31). rewrite land_pow2 by lia.
    apply Z.bits_inj'. intros i Hi. rewrite !Z.land_spec, Hb by assumption.
    change CAN_EFF_MASK with (Z.ones 29). change CAN_SFF_MASK with (Z.ones 11).
    destruct (Z.testbit (can_id frame) 31); cbn [Z.eqb].
    + change (2 ^ 31 =? 0) with false. cbv iota.
      destruct (Z.ltb_spec i 29).
      * rewrite Z.ones_spec_low by lia.
        destruct (Z.eqb_spec i 31); [lia |]. cbn. now rewrite !andb_true_r.
      * rewrite Z.ones_spec_high by lia. now rewrite !andb_false_r.
    + destruct (Z.ltb_spec i 11).
      * rewrite !Z.ones_spec_low by lia. cbn. now rewrite !andb_true_r.
      * rewrite (Z.ones_spec_high 11) by lia. cbn. now rewrite !andb_false_r.
  - rewrite Hid. change CAN_EFF_FLAG with (2 ^ 31).
    destruct (Z.testbit (can_id frame) 31); lia.
  - apply (Hflag CAN_RTR_FLAG 30); [reflexivity | lia].
  - apply (Hflag CAN_ERR_FLAG 29); [reflexivity | lia].
Qed.

(** ** Transmit object and receive hook *)

Lemma length_bytes_at l from n : length (bytes_at l from n) = Z.to_nat n.
Proof. unfold bytes_at. now rewrite length_map, length_seq. Qed.

Lemma nth_bytes_at l from n i :
  (i < Z.to_nat n)%nat ->
  nth i (bytes_at l from n) 0 = nth (Z.to_nat from + i) l 0.
Proof.
  intros Hi. unfold bytes_at.
  rewrite (nth_indep _ 0 (nth (Z.to_nat from + 0) l 0))
    by now rewrite length_map, length_seq.
  rewrite (map_nth (fun i => nth (Z.to_nat from + i) l 0) (seq 0 (Z.to_nat n)) 0%nat i).
  now rewrite seq_nth by assumption.
Qed.

Lemma of_le32_le32 v l : 0 <= v < 2 ^ 32 -> of_le32 (le32 v ++ l) = v.
Proof.
  intros Hv. unfold of_le32, le32. cbn [app nth].
  rewrite (Z.mod_small (v / 16777216)).
  2:{ split; [apply Z.div_pos; lia | apply Z.div_lt_upper_bound; lia]. }
  pose proof (Z.div_mod v 256).
  pose proof (Z.div_mod (v / 256) 256).
  pose proof (Z.div_mod (v / 256 / 256) 256).
  rewrite !Z.div_div in * by lia.
  change (256 * 256) with 65536 in *. change (65536 * 256) with 16777216 in *.
  lia.
Qed.

Lemma tx_obj_len h frame old :
  0 <= can_dlc frame < 256 -> 0 <= X8H7_CAN_FRAME_MAX_DATA_LEN h < 256 ->
  msg_len (x8h7_can_frame_to_tx_obj h frame old)
  = Z.min (can_dlc frame) (X8H7_CAN_FRAME_MAX_DATA_LEN h).
Proof.
  intros Hd Hm. unfold x8h7_can_frame_to_tx_obj. cbn [msg_len].
  destruct (Z.leb_spec (can_dlc frame) (X8H7_CAN_FRAME_MAX_DATA_LEN h));
    rewrite u8_small; lia.
Qed.

(** What the transmit side puts into a frame message, the receive hook
    reads back: a sub-packet with the receive opcode whose payload is the
    header and the [len] data bytes of the transmit object of [frame] makes
    the hook hand the stack one frame, with the identifier of the object,
    [len = min (can_dlc, X8H7_CAN_FRAME_MAX_DATA_LEN)] as its length and
    the first [len] data bytes of [frame], and count one packet and [len]
    bytes. *)
Theorem can_hook_reads_back_tx_obj h status frame old priv :
  0 <= can_dlc frame < 256 ->
  0 <= X8H7_CAN_FRAME_MAX_DATA_LEN h < 256 ->
  let obj := x8h7_can_frame_to_tx_obj h frame old in
  let n := Z.min (can_dlc frame) (X8H7_CAN_FRAME_MAX_DATA_LEN h) in
  let pkt :=
    {| peripheral := periph priv;
       opcode := X8H7_CAN_OC_RECV h;
       size := X8H7_CAN_HEADER_SIZE + msg_len obj;
       data := bytes_at (msg_buf obj) 0 (X8H7_CAN_HEADER_SIZE + msg_len obj) |} in
  let priv' := x8h7_can_hook h status true priv pkt in
  netif_rx priv' =
    netif_rx priv ++
      [{| can_id := msg_id obj; can_dlc := n;
          can_data := bytes_at (can_data frame) 0 n |}] /\
  rx_packets priv' = rx_packets priv + 1 /\
  rx_bytes priv' = rx_bytes priv + n /\
  rx_dropped priv' = rx_dropped priv.
Proof.
  intros Hd Hm. cbv zeta.
  pose proof (tx_obj_len h frame old Hd Hm) as Hlen.
  set (obj := x8h7_can_frame_to_tx_obj h frame old) in *.
  set (n := Z.min (can_dlc frame) (X8H7_CAN_FRAME_MAX_DATA_LEN h)) in *.
  assert (Hn : 0 <= n < 256) by (unfold n; lia).
  assert (Hid : 0 <= msg_id obj < 2 ^ 32).
  { unfold obj. rewrite tx_obj_id. change CAN_EFF_FLAG with (2 ^ 31).
    pose proof (Z.mod_pos_bound (can_id frame) (2 ^ 29)).
    pose proof (Z.mod_pos_bound (can_id frame) (2 ^ 11)).
    destruct (Z.testbit (can_id frame) 31); lia. }
  unfold x8h7_can_hook. cbn [opcode size data].
  rewrite Z.eqb_refl, Hlen. unfold X8H7_CAN_HEADER_SIZE.
  destruct (Z.ltb_spec (5 + n) 5); [lia |]. cbn [negb].
  cbn [netif_rx rx_packets rx_bytes rx_dropped].
  set (payload := bytes_at (msg_buf obj) 0 (5 + n)).
  assert (Hp : forall i, (i < 5 + Z.to_nat n)%nat ->
                         nth i payload 0 = nth i (msg_buf obj) 0).
  { intros i Hi. unfold payload. rewrite nth_bytes_at by lia. reflexivity. }
  assert (Hhdr : bytes_at payload 0 5 = le32 (msg_id obj) ++ [n]).
  { apply (nth_ext _ _ 0 0); [now rewrite length_bytes_at |].
    rewrite length_bytes_at. intros i Hi. rewrite nth_bytes_at by assumption.
    cbn [Z.to_nat Nat.add]. rewrite Hp by lia.
    unfold msg_buf. rewrite <- Hlen.
    change (Z.to_nat 5) with 5%nat in Hi.
    do 5 (destruct i as [| i]; [reflexivity |]). lia. }
  assert (Hdlc : nth 4 (bytes_at payload 0 5) 0 = n) by now rewrite Hhdr.
  assert (Hcid : of_le32 (bytes_at payload 0 5) = msg_id obj)
    by (rewrite Hhdr; now apply of_le32_le32).
  rewrite Hdlc, Hcid.
  repeat split. do 3 f_equal.
  assert (Hdata : msg_data obj
                  = bytes_at (can_data frame) 0 n
                      ++ skipn (Z.to_nat n) (msg_data old)).
  { unfold obj in Hlen |- *. unfold x8h7_can_frame_to_tx_obj in Hlen |- *.
    cbn [msg_len msg_data] in Hlen |- *. now rewrite Hlen. }
  apply (nth_ext _ _ 0 0); [now rewrite !length_bytes_at |].
  rewrite length_bytes_at. intros i Hi.
  rewrite !nth_bytes_at by assumption.
  change (Z.to_nat 5) with 5%nat. change (Z.to_nat 0) with 0%nat.
  rewrite Hp by lia. unfold msg_buf, le32. cbn [app nth Nat.add].
  rewrite Hdata, app_nth1 by (rewrite length_bytes_at; lia).
  now rewrite nth_bytes_at by lia.
Qed.


Lemma can_hook_reads_back_tx_obj_witness :
  let frame := {| can_id := Z.lor CAN_EFF_FLAG 0x12345;
                  can_dlc := 3; can_data := [0x11; 0x22; 0x33; 0; 0; 0; 0; 0] |} in
  let old := tx_frame can_priv_example in
  let obj := x8h7_can_frame_to_tx_obj can_h_example frame old in
  let pkt :=
    {| peripheral := 3; opcode := 2;
       size := X8H7_CAN_HEADER_SIZE + msg_len obj;
       data := bytes_at (msg_buf obj) 0 (X8H7_CAN_HEADER_SIZE + msg_len obj) |} in
  let priv' := x8h7_can_hook can_h_example (fun p _ _ => p) true
                 can_priv_example pkt in
  netif_rx priv' =
    [{| can_id := msg_id obj; can_dlc := 3;
        can_data := bytes_at (can_data frame) 0 3 |}] /\
  rx_packets priv' = 1 /\ rx_bytes priv' = 3 /\ rx_dropped priv' = 0.
Proof.
  intros frame old obj pkt.
  apply (can_hook_reads_back_tx_obj can_h_example (fun p _ _ => p) frame old
           can_priv_example).
  - cbn. lia.
  - cbn. lia.
Defined.

(** ** The peripheral driver ignores what the transport returns *)

(** [x8h7_can_tx_work_handler] does not look at the result of
    [x8h7_pkt_send_sync]: when the record of the frame does not pass the
    capacity test, nothing is queued or transferred and the transport is
    left as it was, yet the handler ends as after a transmission, with
    [tx_len] set to the length of the frame. *)
Theorem can_tx_dropped_silently h spi fuel priv d :
  X8H7_BUF_SIZE <=
    hdr_size (x8h7_txb (x8h7_spidev d)) + sizeof_subpkt
    + u16 (X8H7_CAN_HEADER_SIZE + msg_len (tx_frame priv)) ->
  x8h7_can_tx_work_handler h spi fuel priv d =
    Some (with_tx priv (tx_frame priv) (msg_len (tx_frame priv)), d).
Proof.
  intros Hfull. unfold x8h7_can_tx_work_handler, x8h7_pkt_send_sync.
  cbn [with_tx tx_frame periph].
  rewrite enq_reject by exact Hfull. cbn. now rewrite with_spidev_same.
Qed.

Lemma can_tx_dropped_silently_witness :
  let d := snd (x8h7_pkt_send_defer 1 0x10 245 None driver_init) in
  let priv := with_tx can_priv_example
                {| msg_id := 0x123; msg_len := 2;
                   msg_data := [0xAA; 0xBB; 0; 0; 0; 0; 0; 0] |} 0 in
  x8h7_can_tx_work_handler can_h_example (spi_reply 0 []) 64 priv d =
    Some (with_tx priv (tx_frame priv) (msg_len (tx_frame priv)), d).
Proof.
  intros d priv. apply can_tx_dropped_silently. vm_compute. discriminate.
Defined.

(** ** Filter attributes *)

Lemma filter_check idx id mask max n :
  0 <= n <= 32 -> 0 <= id < 2 ^ 32 -> 0 <= mask < 2 ^ 32 ->
  (idx >=? max)
  || negb (Z.land id (u32 (Z.lnot (Z.ones n))) =? 0)
  || negb (Z.land mask (u32 (Z.lnot (Z.ones n))) =? 0)
  = negb ((idx <? max) && (id <=? Z.ones n) && (mask <=? Z.ones n)).
Proof.
  intros Hn Hid Hmask. rewrite !land_u32_lnot_ones by assumption.
  rewrite Z.geb_leb, !negb_andb. f_equal. f_equal.
  now rewrite Z.ltb_antisym, negb_involutive.
Qed.

(** [x8h7_can_sf_store] and [x8h7_can_ef_store] take a filter only when
    sscanf found three fields, the index lies inside the table and
    identifier and mask have no bit beyond the 11, respectively 29,
    identifier bits; otherwise they return [-EINVAL], send nothing and
    change nothing. A filter they take is written to its table entry, all
    other entries keep their values, and [count] is returned, whether or
    not the filter message could be queued: [-EIO] is never returned. *)
Theorem filter_store_checks h spi fuel ret idx id mask count priv d :
  0 <= id < 2 ^ 32 -> 0 <= mask < 2 ^ 32 ->
  (let ok := filter_params_ok ret idx id mask (X8H7_STD_FLT_MAX h) CAN_SFF_MASK in
   match x8h7_can_sf_store h spi fuel ret idx id mask count priv d with
   | Some (r, priv', d') =>
       if ok
       then r = count /\ std_flt priv' idx = (id, mask) /\
            (forall j, j <> idx -> std_flt priv' j = std_flt priv j) /\
            ext_flt priv' = ext_flt priv
       else r = - EINVAL /\ priv' = priv /\ d' = d
   | None => ok = true
   end) /\
  (let ok := filter_params_ok ret idx id mask (X8H7_EXT_FLT_MAX h) CAN_EFF_MASK in
   match x8h7_can_ef_store h spi fuel ret idx id mask count priv d with
   | Some (r, priv', d') =>
       if ok
       then r = count /\ ext_flt priv' idx = (id, mask) /\
            (forall j, j <> idx -> ext_flt priv' j = ext_flt priv j) /\
            std_flt priv' = std_flt priv
       else r = - EINVAL /\ priv' = priv /\ d' = d
   | None => ok = true
   end).
Proof.
  intros Hid Hmask. split; cbv zeta.
  - unfold x8h7_can_sf_store, filter_params_ok.
    change 0x7FF with (Z.ones 11). change CAN_SFF_MASK with (Z.ones 11).
    rewrite filter_check by (assumption || lia).
    destruct (ret =? 3); cbn [negb andb]; [| now repeat split].
    destruct ((idx <? X8H7_STD_FLT_MAX h) && (id <=? Z.ones 11)
              && (mask <=? Z.ones 11)); cbn [negb]; [| now repeat split].
    unfold x8h7_can_hw_config_filter.
    destruct (x8h7_pkt_send_sync _ _ _ _ _ _ _) as [[r0 d0] |]; [| reflexivity].
    cbn [Z.eqb negb with_std_flt std_flt ext_flt]. rewrite Z.eqb_refl.
    repeat split. intros j Hj. apply Z.eqb_neq in Hj. now rewrite Hj.
  - unfold x8h7_can_ef_store, filter_params_ok.
    change 0x1FFFFFFF with (Z.ones 29). change CAN_EFF_MASK with (Z.ones 29).
    rewrite filter_check by (assumption || lia).
    destruct (ret =? 3); cbn [negb andb]; [| now repeat split].
    destruct ((idx <? X8H7_EXT_FLT_MAX h) && (id <=? Z.ones 29)
              && (mask <=? Z.ones 29)); cbn [negb]; [| now repeat split].
    unfold x8h7_can_hw_config_filter.
    destruct (x8h7_pkt_send_sync _ _ _ _ _ _ _) as [[r0 d0] |]; [| reflexivity].
    cbn [Z.eqb negb with_ext_flt std_flt ext_flt]. rewrite Z.eqb_refl.
    repeat split. intros j Hj. apply Z.eqb_neq in Hj. now rewrite Hj.
Qed.

Lemma filter_store_checks_witness :
  (let ok := filter_params_ok 3 1 0x123 0x7FF
               (X8H7_STD_FLT_MAX can_h_example) CAN_SFF_MASK in
   match x8h7_can_sf_store can_h_example (spi_reply 0 []) 64 3 1 0x123 0x7FF 12
           can_priv_example driver_init with
   | Some (r, priv', d') =>
       if ok
       then r = 12 /\ std_flt priv' 1 = (0x123, 0x7FF) /\
            (forall j, j <> 1 -> std_flt priv' j = std_flt can_priv_example j) /\
            ext_flt priv' = ext_flt can_priv_example
       else r = - EINVAL /\ priv' = can_priv_example /\ d' = driver_init
   | None => ok = true
   end) /\
  (let ok := filter_params_ok 3 1 0x123 0x7FF
               (X8H7_EXT_FLT_MAX can_h_example) CAN_EFF_MASK in
   match x8h7_can_ef_store can_h_example (spi_reply 0 []) 64 3 1 0x123 0x7FF 12
           can_priv_example driver_init with
   | Some (r, priv', d') =>
       if ok
       then r = 12 /\ ext_flt priv' 1 = (0x123, 0x7FF) /\
            (forall j, j <> 1 -> ext_flt priv' j = ext_flt can_priv_example j) /\
            std_flt priv' = std_flt can_priv_example
       else r = - EINVAL /\ priv' = can_priv_example /\ d' = driver_init
   | None => ok = true
   end).
Proof.
  apply (filter_store_checks can_h_example (spi_reply 0 []) 64 3 1 0x123 0x7FF 12
           can_priv_example driver_init); lia.
Defined.
